(** * Presence and attendance engine of the access register

    A shallow embedding of [core/services.py] (class [AccessControlService]),
    of the parts of [core/models.py] it reads and of the forms, views and
    template filters built on it, followed by the properties of the
    entry/exit validator, the ownership linker, the presence resolver and
    the visit aggregator.

    Conventions of the embedding.
    - A Python [str] is the list of its Unicode code points.
    - The tables [User], [Employee], [Vehicle] and [Location] are finite maps
      from the primary key to the row; a query without a stricter order
      returns the rows in primary-key order, the order in which the storage
      engine scans a table or breaks the ties of an index. The [LogEntry]
      table is the list of its rows in insertion (primary key) order.
    - A [DateTimeField] is an integer number of microseconds of local time,
      the resolution of Python's [datetime]; the [__date] transform is the
      floor division by the length of a day.
    - [timezone.now], the default of [LogEntry.timestamp], is an argument of
      the operations that create a row.
    - The storage engine is SQLite. It refuses a [LogEntry] row whose
      location or user has no row: [create] raises an [IntegrityError],
      whose text the service returns from its [except Exception] branch.
      [__iexact] is its [LIKE], which ignores the case of ASCII letters
      only, and [ORDER BY] on a text column compares code points.
    - Where SQL leaves the order of rows with equal sort keys open, the
      embedding keeps them in table order (a stable sort). *)

From Stdlib Require Import ZArith String Ascii List Bool Lia Permutation Sorted.
From stdpp Require Import gmap list fin_maps.

Import ListNotations.
Local Open Scope string_scope.
Local Open Scope list_scope.
Local Open Scope Z_scope.

(** ** Strings: [str.strip], [str.upper], [__iexact], truthiness, [str(n)] *)

(** A Python [str]. *)
Definition str : Type := list Z.

Module Str.

(** The code points of a literal of the source, all of which are ASCII. *)
Definition lit (s : string) : str :=
  map (fun c => Z.of_N (N_of_ascii c)) (list_ascii_of_string s).

(** [a + b], and the pieces of an f-string. *)
Definition append (a b : str) : str := a ++ b.

(** [a == b]. *)
Definition eqb (a b : str) : bool := bool_decide (a = b).

(** The characters [str.strip] removes, those for which [str.isspace] holds:
    U+0009..U+000D, U+001C..U+0020, U+0085, U+00A0, U+1680, U+2000..U+200A,
    U+2028, U+2029, U+202F, U+205F and U+3000. *)
Definition is_whitespace (c : Z) : bool :=
  ((9 <=? c) && (c <=? 13)) || ((28 <=? c) && (c <=? 32))
  || (c =? 133) || (c =? 160) || (c =? 5760)
  || ((8192 <=? c) && (c <=? 8202))
  || (c =? 8232) || (c =? 8233) || (c =? 8239) || (c =? 8287) || (c =? 12288).

Fixpoint lstrip (s : str) : str :=
  match s with
  | [] => []
  | c :: s' => if is_whitespace c then lstrip s' else s
  end.

Fixpoint rstrip (s : str) : str :=
  match s with
  | [] => []
  | c :: s' =>
      match rstrip s' with
      | [] => if is_whitespace c then [] else [c]
      | r => c :: r
      end
  end.

Definition strip (s : str) : str := rstrip (lstrip s).

Definition lower_ascii (c : Z) : Z :=
  if (65 <=? c) && (c <=? 90) then c + 32 else c.

Definition lower (s : str) : str := map lower_ascii s.

(** The [__iexact] lookup, SQLite's [LIKE] on a pattern whose wildcards are
    escaped: equality up to the case of the ASCII letters. *)
Definition iexact (a b : str) : bool := eqb (lower a) (lower b).

(** Truth value of a Python string: non-empty. *)
Definition truthy (s : str) : bool :=
  match s with [] => false | _ :: _ => true end.

(** The order of [ORDER BY] on a text column: code point by code point, a
    proper prefix first. *)
Fixpoint leb (a b : str) : bool :=
  match a, b with
  | [], _ => true
  | _ :: _, [] => false
  | x :: a', y :: b' => if x <? y then true else if y <? x then false else leb a' b'
  end.

Definition digit (n : nat) : Z := 48 + Z.of_nat n.

Fixpoint of_nat_fuel (fuel n : nat) (acc : str) : str :=
  match fuel with
  | O => acc
  | S fuel' =>
      let acc' := digit (n mod 10) :: acc in
      match (n / 10)%nat with
      | O => acc'
      | q => of_nat_fuel fuel' q acc'
      end
  end.

(** [str(n)] for an integer. *)
Definition of_Z (z : Z) : str :=
  let n := Z.abs_nat z in
  let body := of_nat_fuel (S n) n [] in
  if z <? 0 then 45 :: body else body.

End Str.

Coercion Str.lit : string >-> str.
Infix "+:+" := Str.append (at level 60, right associativity).

(** ** Data model ([core/models.py]) *)

(** [LogEntry.EntityType]; the declaration order is the order of the stored
    strings ['employee' < 'vehicle']. *)
Inductive EntityType : Type := EMPLOYEE | VEHICLE.

(** [LogEntry.Direction]. *)
Inductive Direction : Type := IN | OUT.

(** [User.Role]. *)
Inductive Role : Type := ADMIN | OFFICER.

Global Instance EntityType_eq_dec : EqDecision EntityType.
Proof. solve_decision. Defined.

Global Instance Direction_eq_dec : EqDecision Direction.
Proof. solve_decision. Defined.

Global Instance Role_eq_dec : EqDecision Role.
Proof. solve_decision. Defined.

Record Location : Type := mkLocation {
  loc_name : str;
  loc_code : str;
  loc_is_active : bool
}.

Record User : Type := mkUser {
  user_pk : Z;
  role : Role;
  is_superuser : bool;
  user_location : option Z
}.

Record Department : Type := mkDepartment {
  dept_name : str;
  dept_location : Z
}.

Record Employee : Type := mkEmployee {
  emp_location : Z;
  ext_id : str;
  nume : str;
  department : option Department;
  emp_activ : bool
}.

Record Vehicle : Type := mkVehicle {
  veh_location : Z;
  plate_number : str;
  descriere : str;
  proprietar : str;
  veh_activ : bool
}.

Record LogEntry : Type := mkLogEntry {
  location : Z;
  entity_type : EntityType;
  entity_id : Z;
  direction : Direction;
  timestamp : Z;
  recorded_by : option Z
}.

Record DB : Type := mkDB {
  users : gmap Z User;
  employees : gmap Z Employee;
  vehicles : gmap Z Vehicle;
  locations : gmap Z Location;
  log : list LogEntry
}.

(** ** Ordering of query sets and of Python lists *)

Section StableSort.
Context {A : Type} (leb : A -> A -> bool).

Fixpoint insert_sorted (x : A) (l : list A) : list A :=
  match l with
  | [] => [x]
  | y :: ys => if leb x y then x :: y :: ys else y :: insert_sorted x ys
  end.

(** Stable: an element stays in front of the later elements it is
    [leb]-below or equal to. *)
Fixpoint stable_sort (l : list A) : list A :=
  match l with
  | [] => []
  | x :: xs => insert_sorted x (stable_sort xs)
  end.

(** In order: every element is [leb]-below all the later ones. *)
Definition sorted (l : list A) : Prop :=
  StronglySorted (fun a b => leb a b = true) l.
End StableSort.

(** The rows of a table with their primary keys, in primary-key order. *)
Definition table_rows {R : Type} (table : gmap Z R) : list (Z * R) :=
  stable_sort (fun a b => fst a <=? fst b) (map_to_list table).

(** [order_by('-timestamp')] and SQL's [ORDER BY timestamp DESC]. *)
Definition order_by_timestamp_desc (l : list LogEntry) : list LogEntry :=
  stable_sort (fun a b => timestamp b <=? timestamp a) l.

(** [QuerySet.first()]. *)
Definition first {A : Type} (l : list A) : option A := List.hd_error l.

(** ** The service ([core/services.py]) *)

Definition is_entity (t : EntityType) (i : Z) (e : LogEntry) : bool :=
  bool_decide (entity_type e = t) && (entity_id e =? i).

Definition get_last_direction (db : DB) (t : EntityType) (i : Z) : option Direction :=
  let last_entry := first (order_by_timestamp_desc (List.filter (is_entity t i) (log db))) in
  match last_entry with
  | Some e => Some (direction e)
  | None => None
  end.

(** The tables once the row of [LogEntry.objects.create(...)] is inserted:
    one row appended, stamped with the clock. *)
Definition insert_row (db : DB) (loc : Z) (t : EntityType) (i : Z) (d : Direction)
    (by_user : Z) (now : Z) : DB :=
  mkDB (users db) (employees db) (vehicles db) (locations db)
       (log db ++ [mkLogEntry loc t i d now (Some by_user)]).

(** The foreign keys of a [LogEntry] row: the location and the user it
    names have a row. *)
Definition foreign_keys_hold (db : DB) (loc by_user : Z) : bool :=
  bool_decide (is_Some (locations db !! loc)) && bool_decide (is_Some (users db !! by_user)).

(** [str(e)] for the [IntegrityError] the storage engine raises. *)
Definition msg_foreign_key : str := "FOREIGN KEY constraint failed".

(** What [LogEntry.objects.create(...)] does: the row is saved, or the
    storage engine refuses it and an exception with a message is raised. *)
Inductive Created : Type :=
| Saved (db' : DB)
| Raised (message : str).

Definition create (db : DB) (loc : Z) (t : EntityType) (i : Z) (d : Direction)
    (by_user : Z) (now : Z) : Created :=
  if foreign_keys_hold db loc by_user then Saved (insert_row db loc t i d by_user now)
  else Raised msg_foreign_key.

(** [Employee.objects.filter(id=employee_id, activ=True).first()]. *)
Definition active_employee (db : DB) (employee_id : Z) : option Employee :=
  match employees db !! employee_id with
  | Some e => if emp_activ e then Some e else None
  | None => None
  end.

(** [Vehicle.objects.filter(id=vehicle_id, activ=True).first()]. *)
Definition active_vehicle (db : DB) (vehicle_id : Z) : option Vehicle :=
  match vehicles db !! vehicle_id with
  | Some v => if veh_activ v then Some v else None
  | None => None
  end.

Definition msg_employee_not_found : str :=
  "Angajatul nu a fost gasit sau nu este activ".

Definition msg_employee_already_in (name : str) : str :=
  name +:+ " este deja pe teritoriu. Nu se poate inregistra intrarea de doua ori.".

Definition msg_employee_not_in (name : str) : str :=
  name +:+ " nu este pe teritoriu. Nu se poate inregistra iesirea fara intrare.".

Definition msg_vehicle_not_found : str :=
  "Vehiculul nu a fost gasit sau nu este activ".

Definition msg_vehicle_already_in (plate : str) : str :=
  "Vehiculul " +:+ plate +:+ " este deja pe teritoriu.".

Definition msg_vehicle_not_in (plate : str) : str :=
  "Vehiculul " +:+ plate +:+ " nu este pe teritoriu.".

(** The pair [(success, message)] every recording operation returns. *)
Definition Outcome : Type := (bool * option str)%type.

(** The last match is the [try] around the [create]: an exception it raises
    is caught by [except Exception as e], which returns [False, str(e)]. *)
Definition mark_employee_entry (db : DB) (employee_id : Z) (d : Direction)
    (loc : Z) (by_user : Z) (now : Z) : DB * Outcome :=
  match active_employee db employee_id with
  | None => (db, (false, Some msg_employee_not_found))
  | Some employee =>
      let last_direction := get_last_direction db EMPLOYEE employee_id in
      if bool_decide (d = IN) && bool_decide (last_direction = Some IN) then
        (db, (false, Some (msg_employee_already_in (nume employee))))
      else if bool_decide (d = OUT) && negb (bool_decide (last_direction = Some IN)) then
        (db, (false, Some (msg_employee_not_in (nume employee))))
      else
        match create db loc EMPLOYEE employee_id d by_user now with
        | Saved db' => (db', (true, None))
        | Raised message => (db, (false, Some message))
        end
  end.

(** The rows of the [Employee] table in the order of its [Meta.ordering],
    [['nume']]; rows with the same name in primary-key order. *)
Definition employees_by_nume (db : DB) : list (Z * Employee) :=
  stable_sort (fun a b => Str.leb (nume (snd a)) (nume (snd b)))
              (table_rows (employees db)).

(** [Employee.objects.filter(nume__iexact=owner.strip(), activ=True).first()],
    guarded by [if vehicle.proprietar]: the employee the linker marks, if any. *)
Definition owner_employee (db : DB) (vehicle : Vehicle) : option (Z * Employee) :=
  if Str.truthy (proprietar vehicle) then
    first (List.filter
             (fun r => Str.iexact (nume (snd r)) (Str.strip (proprietar vehicle))
                       && emp_activ (snd r))
             (employees_by_nume db))
  else None.

Definition msg_linked (name : str) (d : Direction) : str :=
  let action : str := match d with IN => "intrare" | OUT => "iesire" end in
  " + " +:+ name +:+ " (" +:+ action +:+ " automata)".

(** [should_mark] of the linker. *)
Definition should_mark (d : Direction) (emp_last_direction : option Direction) : bool :=
  if bool_decide (d = IN) && negb (bool_decide (emp_last_direction = Some IN)) then true
  else if bool_decide (d = OUT) && bool_decide (emp_last_direction = Some IN) then true
  else false.

(** [now] stamps the vehicle's row and [now2] the mirrored employee row: the
    clock is read once for each [create]. An exception of the second
    [create] is caught after the first row has been saved. *)
Definition mark_vehicle_entry (db : DB) (vehicle_id : Z) (d : Direction)
    (loc : Z) (by_user : Z) (now now2 : Z) : DB * Outcome :=
  match active_vehicle db vehicle_id with
  | None => (db, (false, Some msg_vehicle_not_found))
  | Some vehicle =>
      let last_direction := get_last_direction db VEHICLE vehicle_id in
      if bool_decide (d = IN) && bool_decide (last_direction = Some IN) then
        (db, (false, Some (msg_vehicle_already_in (plate_number vehicle))))
      else if bool_decide (d = OUT) && negb (bool_decide (last_direction = Some IN)) then
        (db, (false, Some (msg_vehicle_not_in (plate_number vehicle))))
      else
        match create db loc VEHICLE vehicle_id d by_user now with
        | Raised message => (db, (false, Some message))
        | Saved db1 =>
            match owner_employee db1 vehicle with
            | Some (employee_id, employee) =>
                let emp_last_direction := get_last_direction db1 EMPLOYEE employee_id in
                if should_mark d emp_last_direction then
                  match create db1 loc EMPLOYEE employee_id d by_user now2 with
                  | Saved db2 => (db2, (true, Some (msg_linked (nume employee) d)))
                  | Raised message => (db1, (false, Some message))
                  end
                else (db1, (true, None))
            | None => (db1, (true, None))
            end
        end
  end.

Definition is_entity_present (db : DB) (t : EntityType) (i : Z) : bool :=
  bool_decide (get_last_direction db t i = Some IN).

(** *** Requests served side by side

    The service takes no lock and opens no transaction: a request worker
    runs the reads and tests of [mark_employee_entry] against the tables as
    they are when it reaches them, and its [create] against the tables as
    they are by then. *)









(** *** The present-now query *)

Definition entity_key (e : LogEntry) : EntityType * Z := (entity_type e, entity_id e).

Definition has_key (k : EntityType * Z) (e : LogEntry) : bool :=
  bool_decide (entity_key e = k).

(** The partitions of [PARTITION BY entity_type, entity_id], by first row. *)
Fixpoint partition_keys (rows : list LogEntry) : list (EntityType * Z) :=
  match rows with
  | [] => []
  | e :: rest =>
      entity_key e :: List.filter (fun k => negb (bool_decide (k = entity_key e)))
                                  (partition_keys rest)
  end.

(** [ROW_NUMBER() OVER (... ORDER BY timestamp DESC)] within one partition. *)
Definition row_number (partition : list LogEntry) : list (nat * LogEntry) :=
  combine (seq 1 (length partition)) (order_by_timestamp_desc partition).

(** The common table expression [last_events] over the selected rows. *)
Definition last_events (rows : list LogEntry) : list (nat * LogEntry) :=
  flat_map (fun k => row_number (List.filter (has_key k) rows)) (partition_keys rows).

(** [WHERE le.rn = 1 AND le.direction = 'IN' ORDER BY le.timestamp DESC]. *)
Definition select_present (cte : list (nat * LogEntry)) : list LogEntry :=
  order_by_timestamp_desc
    (map snd (List.filter (fun r => (fst r =? 1)%nat && bool_decide (direction (snd r) = IN)) cte)).

(** The SQL of [get_present_now]: the [where_clause] sits inside the common
    table expression, in front of the window function. *)
Definition present_rows (db : DB) (loc : option Z) : list LogEntry :=
  let selected :=
    match loc with
    | Some l => List.filter (fun e => location e =? l) (log db)
    | None => log db
    end in
  select_present (last_events selected).

Inductive PresentDetail : Type :=
| EmployeeDetail (departament : str) (entity : Employee)
| VehicleDetail (descriere' proprietar' : str) (entity : Vehicle).

(** One dictionary of the list [get_present_now] returns. *)
Record PresentRow : Type := mkPresentRow {
  p_entity_type : EntityType;
  p_entity_id : Z;
  p_name : str;
  p_entry_time : Z;
  p_entry_location : option Location;
  p_registered_location : Z;
  p_detail : PresentDetail
}.

(** [Model.objects.filter(id__in=ids)] as the dictionary [{row.id: row}]. *)
Definition fetch_by_ids {R : Type} (table : gmap Z R) (ids : list Z) : gmap Z R :=
  filter (fun kv => fst kv ∈ ids) table.

Definition present_row (employees' : gmap Z Employee) (vehicles' : gmap Z Vehicle)
    (locations' : gmap Z Location) (r : LogEntry) : option PresentRow :=
  match entity_type r with
  | EMPLOYEE =>
      match employees' !! entity_id r with
      | Some emp =>
          Some (mkPresentRow EMPLOYEE (entity_id r) (nume emp) (timestamp r)
                  (locations' !! location r) (emp_location emp)
                  (EmployeeDetail
                     (match department emp with Some dp => dept_name dp | None => [] end)
                     emp))
      | None => None
      end
  | VEHICLE =>
      match vehicles' !! entity_id r with
      | Some veh =>
          Some (mkPresentRow VEHICLE (entity_id r) (plate_number veh) (timestamp r)
                  (locations' !! location r) (veh_location veh)
                  (VehicleDetail (descriere veh) (proprietar veh) veh))
      | None => None
      end
  end.

(** [loc] is the primary key of the [Location] passed in, [None] for the
    administrator's view of all locations. *)
Definition get_present_now (db : DB) (loc : option Z) : list PresentRow :=
  let rows := present_rows db loc in
  let employee_ids := map entity_id (List.filter (fun r => bool_decide (entity_type r = EMPLOYEE)) rows) in
  let vehicle_ids := map entity_id (List.filter (fun r => bool_decide (entity_type r = VEHICLE)) rows) in
  let employees' := fetch_by_ids (employees db) employee_ids in
  let vehicles' := fetch_by_ids (vehicles db) vehicle_ids in
  omap (present_row employees' vehicles' (locations db)) rows.

Definition get_present_employees_at_location (db : DB) (loc : Z) : list PresentRow :=
  List.filter (fun p => bool_decide (p_entity_type p = EMPLOYEE)) (get_present_now db (Some loc)).

Definition get_present_vehicles_at_location (db : DB) (loc : Z) : list PresentRow :=
  List.filter (fun p => bool_decide (p_entity_type p = VEHICLE)) (get_present_now db (Some loc)).

(** [get_present_counts_by_location]: the same window over the whole log
    (or over the employees' rows), then [GROUP BY le.location_id]. *)
Definition get_present_counts_by_location (db : DB) (employees_only : bool) : gmap Z nat :=
  let selected :=
    if employees_only
    then List.filter (fun e => bool_decide (entity_type e = EMPLOYEE)) (log db)
    else log db in
  fold_left (fun counts e => <[location e := S (default O (counts !! location e))]> counts)
            (select_present (last_events selected)) ∅.

(** *** The visit history *)

(** The properties [entity_name] and [entity_department] of [LogEntry]. *)
Definition entity_type_str (t : EntityType) : str :=
  match t with EMPLOYEE => "employee" | VEHICLE => "vehicle" end.

Definition entity_name (db : DB) (e : LogEntry) : str :=
  let deleted := "[Sters " +:+ entity_type_str (entity_type e) +:+ " #"
                 +:+ Str.of_Z (entity_id e) +:+ "]" in
  match entity_type e with
  | EMPLOYEE =>
      match employees db !! entity_id e with Some emp => nume emp | None => deleted end
  | VEHICLE =>
      match vehicles db !! entity_id e with Some veh => plate_number veh | None => deleted end
  end.

Definition entity_department (db : DB) (e : LogEntry) : str :=
  match entity_type e with
  | EMPLOYEE =>
      match employees db !! entity_id e with
      | Some emp => match department emp with Some dp => dept_name dp | None => [] end
      | None => []
      end
  | VEHICLE => []
  end.

(** One dictionary of the list [get_visit_history] returns. *)
Record Visit : Type := mkVisit {
  v_entity_type : EntityType;
  v_entity_id : Z;
  v_entry_time : Z;
  v_exit_time : option Z;
  v_entry_location : Z;
  v_exit_location : option Z;
  v_recorded_by_entry : option Z;
  v_recorded_by_exit : option Z;
  v_entity_name : str;
  v_entity_department : str
}.

Definition microseconds_per_second : Z := 1000000.

Definition microseconds_per_day : Z := 86400 * microseconds_per_second.

(** The [__date] transform of a timestamp: its day number. *)
Definition date_of (ts : Z) : Z := ts / microseconds_per_day.

(** The keyword filters [get_visit_history] builds; an absent (or falsy)
    argument adds no condition. *)
Definition visit_filter (loc : option Z) (date_from date_to : option Z)
    (entity_type_filter : option EntityType) (e : LogEntry) : bool :=
  match loc with Some l => location e =? l | None => true end
  && match date_from with Some d => d <=? date_of (timestamp e) | None => true end
  && match date_to with Some d => date_of (timestamp e) <=? d | None => true end
  && match entity_type_filter with Some t => bool_decide (entity_type e = t) | None => true end.

Definition entity_type_leb (a b : EntityType) : bool :=
  match a, b with
  | VEHICLE, EMPLOYEE => false
  | _, _ => true
  end.

(** [order_by('entity_type', 'entity_id', 'timestamp')]. *)
Definition entry_leb (a b : LogEntry) : bool :=
  if bool_decide (entity_type a = entity_type b) then
    if entity_id a =? entity_id b then timestamp a <=? timestamp b
    else entity_id a <? entity_id b
  else entity_type_leb (entity_type a) (entity_type b).

(** The entries the aggregator scans. *)
Definition visit_entries (db : DB) (loc : option Z) (date_from date_to : option Z)
    (entity_type_filter : option EntityType) : list LogEntry :=
  stable_sort entry_leb
    (List.filter (visit_filter loc date_from date_to entity_type_filter) (log db)).

(** [entity_entries[key].append(entry)] on a dictionary that keeps the order
    in which its keys were first inserted. *)
Fixpoint group_append (key : EntityType * Z) (entry : LogEntry)
    (groups : list ((EntityType * Z) * list LogEntry)) :
    list ((EntityType * Z) * list LogEntry) :=
  match groups with
  | [] => [(key, [entry])]
  | (k, elist) :: rest =>
      if bool_decide (k = key) then (k, elist ++ [entry]) :: rest
      else (k, elist) :: group_append key entry rest
  end.

Definition entity_entries (entries : list LogEntry) :
    list ((EntityType * Z) * list LogEntry) :=
  fold_left (fun groups entry => group_append (entity_key entry) entry groups) entries [].

Definition closed_visit (db : DB) (etype : EntityType) (eid : Z)
    (current_entry entry : LogEntry) : Visit :=
  mkVisit etype eid (timestamp current_entry) (Some (timestamp entry))
          (location current_entry) (Some (location entry))
          (recorded_by current_entry) (recorded_by entry)
          (entity_name db current_entry) (entity_department db current_entry).

Definition open_visit (db : DB) (etype : EntityType) (eid : Z)
    (current_entry : LogEntry) : Visit :=
  mkVisit etype eid (timestamp current_entry) None
          (location current_entry) None
          (recorded_by current_entry) None
          (entity_name db current_entry) (entity_department db current_entry).

(** The state of the pairing loop: the slot [current_entry] and the list
    [visits] built so far. *)
Definition PairState : Type := (option LogEntry * list Visit)%type.

(** One iteration of [for entry in elist]. *)
Definition pair_step (db : DB) (etype : EntityType) (eid : Z)
    (st : PairState) (entry : LogEntry) : PairState :=
  let '(current_entry, visits) := st in
  match direction entry with
  | IN => (Some entry, visits)
  | OUT =>
      match current_entry with
      | Some c => (None, visits ++ [closed_visit db etype eid c entry])
      | None => (current_entry, visits)
      end
  end.

Definition pair_loop (db : DB) (etype : EntityType) (eid : Z)
    (st : PairState) (elist : list LogEntry) : PairState :=
  fold_left (pair_step db etype eid) elist st.

(** The body of [for (etype, eid), elist in entity_entries.items()]: the slot
    starts empty, the entries are scanned, and a slot still held at the end
    gives an open visit. *)
Definition pair_entity (db : DB) (visits : list Visit)
    (group : (EntityType * Z) * list LogEntry) : list Visit :=
  let '((etype, eid), elist) := group in
  let '(current_entry, visits') := pair_loop db etype eid (None, visits) elist in
  match current_entry with
  | Some c => visits' ++ [open_visit db etype eid c]
  | None => visits'
  end.

(** [visits.sort(key=lambda x: x['entry_time'], reverse=True)]. *)
Definition sort_visits (visits : list Visit) : list Visit :=
  stable_sort (fun a b => v_entry_time b <=? v_entry_time a) visits.

(** The slice [l[:limit]]; a negative bound counts from the end. *)
Definition slice_to {A : Type} (l : list A) (limit : Z) : list A :=
  if 0 <=? limit then firstn (Z.to_nat limit) l
  else firstn (length l - Z.to_nat (- limit)) l.

(** All the visits of the filtered log, most recent entry first: the list
    [visits] just before the final slice. *)
Definition paired_visits (db : DB) (loc : option Z) (date_from date_to : option Z)
    (entity_type_filter : option EntityType) : list Visit :=
  let entries := visit_entries db loc date_from date_to entity_type_filter in
  sort_visits (fold_left (pair_entity db) (entity_entries entries) []).

Definition get_visit_history (db : DB) (loc : option Z) (date_from date_to : option Z)
    (entity_type_filter : option EntityType) (limit : Z) : list Visit :=
  slice_to (paired_visits db loc date_from date_to entity_type_filter) limit.

(** ** Vocabulary of the properties *)

(** The two rejections of the entry/exit state machine, as the service
    reports them: a failure whose message quotes the display name. *)
Inductive InvalidTransition : Outcome -> Prop :=
| employee_already_in (name : str) :
    InvalidTransition (false, Some (msg_employee_already_in name))
| employee_not_in (name : str) :
    InvalidTransition (false, Some (msg_employee_not_in name))
| vehicle_already_in (plate : str) :
    InvalidTransition (false, Some (msg_vehicle_already_in plate))
| vehicle_not_in (plate : str) :
    InvalidTransition (false, Some (msg_vehicle_not_in plate)).

(** The failure for an entity that is missing or deactivated. *)
Inductive NotFound : Outcome -> Prop :=
| employee_not_found : NotFound (false, Some msg_employee_not_found)
| vehicle_not_found : NotFound (false, Some msg_vehicle_not_found).

(** The entries filed under a key of the grouping dictionary. *)
Fixpoint group_of (key : EntityType * Z)
    (groups : list ((EntityType * Z) * list LogEntry)) : list LogEntry :=
  match groups with
  | [] => []
  | (k, elist) :: rest => if bool_decide (k = key) then elist else group_of key rest
  end.

(** The tables with the log cut down to the events of one location; all of
    it for [None]. *)
Definition at_location (db : DB) (loc : option Z) : DB :=
  mkDB (users db) (employees db) (vehicles db) (locations db)
       (match loc with
        | Some l => List.filter (fun e => location e =? l) (log db)
        | None => log db
        end).

(** The entity still has its row in the [Employee] or [Vehicle] table. *)
Definition registered (db : DB) (t : EntityType) (i : Z) : Prop :=
  match t with
  | EMPLOYEE => is_Some (employees db !! i)
  | VEHICLE => is_Some (vehicles db !! i)
  end.

(** The visits of one entity in a result. *)
Definition visit_of (key : EntityType * Z) (v : Visit) : bool :=
  bool_decide ((v_entity_type v, v_entity_id v) = key).


Module Examples.

Definition jane : Employee := mkEmployee 1 "EMPASA0001" "Jane Doe" None true.

Definition jane_deactivated : Employee :=
  mkEmployee 1 "EMPASA0001" "Jane Doe" None false.

Definition car : Vehicle := mkVehicle 2 "UN AB 123" "Dacia" " jane doe " true.

Definition sites : gmap Z Location :=
  {[ 1 := mkLocation "UG Asachi" "ASA" true; 2 := mkLocation "UG Sf.Vineri" "SFV" true ]}.

(** Officer 100 of location 1 and administrator 101. *)
Definition staff : gmap Z User :=
  {[ 100 := mkUser 100 OFFICER false (Some 1); 101 := mkUser 101 ADMIN false None ]}.

(** Employee 7 entered at location 1 and was deactivated while inside. *)
Definition deactivated_inside : DB :=
  mkDB staff {[ 7 := jane_deactivated ]} ∅ sites [mkLogEntry 1 EMPLOYEE 7 IN 10 (Some 100)].

(** Employee 7 is inside, having entered at location 1. *)
Definition inside : DB :=
  mkDB staff {[ 7 := jane ]} {[ 3 := car ]} sites [mkLogEntry 1 EMPLOYEE 7 IN 10 (Some 100)].

(** Employee 7 entered at location 1 and left through location 2. *)
Definition left_elsewhere : DB :=
  mkDB staff {[ 7 := jane ]} {[ 3 := car ]} sites
       [mkLogEntry 1 EMPLOYEE 7 IN 10 (Some 100); mkLogEntry 2 EMPLOYEE 7 OUT 30 (Some 101)].

(** Employee 7 entered at location 1; the [Employee] row was deleted since. *)
Definition deleted_inside : DB :=
  mkDB staff ∅ {[ 3 := car ]} sites [mkLogEntry 1 EMPLOYEE 7 IN 10 (Some 100)].


(** Two entries of employee 7 in a row, then an exit. *)
Definition entered_twice : DB :=
  mkDB staff {[ 7 := jane ]} {[ 3 := car ]} sites
       [mkLogEntry 1 EMPLOYEE 7 IN 10 (Some 100); mkLogEntry 1 EMPLOYEE 7 IN 20 (Some 100);
        mkLogEntry 1 EMPLOYEE 7 OUT 30 (Some 100)].

Definition second : Z := microseconds_per_second.

Definition hour : Z := 3600 * second.

Definition day : Z := microseconds_per_day.

(** Employee 7 came in on day 5 at 09:00, left at 17:00 and came back on
    day 6 at 08:00; vehicle 3 came in on day 5 at 10:00. *)
Definition week : DB :=
  mkDB staff {[ 7 := jane ]} {[ 3 := car ]} sites
       [mkLogEntry 1 EMPLOYEE 7 IN (5 * day + 9 * hour) (Some 100);
        mkLogEntry 1 VEHICLE 3 IN (5 * day + 10 * hour) (Some 100);
        mkLogEntry 1 EMPLOYEE 7 OUT (5 * day + 17 * hour) (Some 100);
        mkLogEntry 2 EMPLOYEE 7 IN (6 * day + 8 * hour) (Some 101)].

(** Nobody has ever entered. *)
Definition fresh : DB := mkDB staff {[ 7 := jane ]} {[ 3 := car ]} sites [].

(** Two active employees of the same name, and the car of one of them. *)
Definition namesakes : DB :=
  mkDB staff {[ 1 := jane; 2 := jane ]} {[ 3 := car ]} sites [].

(** The owner field of the car as pasted from a page: the name between two
    no-break spaces. *)
Definition pasted_car : Vehicle :=
  mkVehicle 2 "UN AB 123" "Dacia" (160 :: Str.lit "Jane Doe" ++ [160]) true.

Definition pasted : DB := mkDB staff {[ 7 := jane ]} {[ 3 := pasted_car ]} sites [].

Definition nine : Z := 5 * day + 9 * hour.
Definition five_past_nine : Z := nine + 300 * second.
Definition seventeen : Z := 5 * day + 17 * hour.

(** The day of employee 7: in at 09:00, then out at 17:00. *)
Definition after_in : DB := fst (mark_employee_entry fresh 7 IN 1 100 nine).
Definition after_out : DB := fst (mark_employee_entry after_in 7 OUT 1 100 seventeen).

(** Vehicle 3 driven in at location 2 at 09:00. *)
Definition after_car : DB := fst (mark_vehicle_entry fresh 3 IN 2 100 nine (nine + 1)).


End Examples.

(** ** Template filters ([core/templatetags/custom_filters.py]) *)

(** [int(delta.total_seconds())] for the difference [delta] of two datetimes,
    in microseconds: [total_seconds] divides by 10^6 and [int] truncates
    toward zero. (The division is one of floats; it yields the float nearest
    to the quotient, which truncates to the same integer for every interval
    shorter than 2^53 microseconds, 285 years.) *)
Definition total_seconds_int (delta : Z) : Z := Z.quot delta microseconds_per_second.

(** [duration_until]: a missing time is [None]; [divmod] by a positive
    number is the floor division and its remainder. *)
Definition duration_until (start_time end_time : option Z) : str :=
  match start_time, end_time with
  | Some s, Some e =>
      let delta := e - s in
      let total_seconds := total_seconds_int delta in
      if total_seconds <? 0 then "-"
      else
        let hours := total_seconds / 3600 in
        let remainder := total_seconds mod 3600 in
        let minutes := remainder / 60 in
        let seconds := remainder mod 60 in
        if 0 <? hours then Str.of_Z hours +:+ "h " +:+ Str.of_Z minutes +:+ "m"
        else if 0 <? minutes then Str.of_Z minutes +:+ "m"
        else Str.of_Z seconds +:+ "s"
  | _, _ => "-"
  end.

(** The column [Durata] of [HistoryExportView] ([core/views.py]): empty for
    an open visit, hours and minutes otherwise, with no test of the sign. *)
Definition export_duration (visit : Visit) : str :=
  match v_exit_time visit with
  | Some exit_time =>
      let delta := exit_time - v_entry_time visit in
      let total_seconds := total_seconds_int delta in
      let hours := total_seconds / 3600 in
      let remainder := total_seconds mod 3600 in
      let minutes := remainder / 60 in
      if 0 <? hours then Str.of_Z hours +:+ "h " +:+ Str.of_Z minutes +:+ "m"
      else Str.of_Z minutes +:+ "m"
  | None => []
  end.

(** ** Forms ([core/forms.py]) *)

(** The outcome of a [clean_<field>] method: the cleaned value, or the
    message of the [ValidationError] it raises. *)
Inductive Cleaned : Type :=
| Clean (value : option str)
| ValidationError (message : str).

(** The double quote, for the messages that quote a value. *)
Definition dquote : str := [34].

Definition is_upper_letter (c : Z) : bool := (65 <=? c) && (c <=? 90).

Definition is_digit (c : Z) : bool := (48 <=? c) && (c <=? 57).

(** The character class [[A-Z0-9 ]]. *)
Definition is_plate_char (c : Z) : bool := is_upper_letter c || is_digit c || (c =? 32).

(** The upper-case form of a character, for the characters that have one
    within [[A-Z0-9 ]]: the letters a-z, the sharp s (SS), the dotless i,
    the long s and the ligatures U+FB00..U+FB06 (FF, FI, FL, FFI, FFL, ST,
    ST). Every other character either is its own upper-case form or has
    one with a character outside of [[A-Z0-9 ]], which the format test of
    [clean_plate_number] refuses like the character itself: such a character
    is left as it is. *)
Definition upper_char (c : Z) : str :=
  if (97 <=? c) && (c <=? 122) then [c - 32]
  else if c =? 223 then "SS"
  else if c =? 305 then "I"
  else if c =? 383 then "S"
  else if c =? 64256 then "FF"
  else if c =? 64257 then "FI"
  else if c =? 64258 then "FL"
  else if c =? 64259 then "FFI"
  else if c =? 64260 then "FFL"
  else if (c =? 64261) || (c =? 64262) then "ST"
  else [c].

(** [str.upper], character by character. *)
Definition upper (s : str) : str := flat_map upper_char s.

(** [re.match(r'^[A-Z0-9 ]+$', s)]: one or more characters of the class up
    to the end of the string, or up to the line feed that ends it. *)
Definition plate_format (s : str) : bool :=
  let body := match last s with Some 10 => removelast s | _ => s end in
  Str.truthy body && forallb is_plate_char body.

(** [qs.exclude(pk=self.instance.pk)], applied when the form edits a saved
    instance ([self.instance.pk] is set and not zero). *)
Definition exclude_instance {R : Type} (instance_pk : option Z) (qs : list (Z * R)) :
    list (Z * R) :=
  match instance_pk with
  | Some pk => if pk =? 0 then qs else List.filter (fun r => negb (fst r =? pk)) qs
  | None => qs
  end.

Definition msg_employee_exists (db : DB) (existing : Employee) : str :=
  let dept_info :=
    match department existing with
    | Some dp => " (" +:+ dept_name dp +:+ ")"
    | None => []
    end in
  let loc_info :=
    match locations db !! emp_location existing with
    | Some l => " - " +:+ loc_code l
    | None => []
    end in
  "Un angajat cu numele " +:+ dquote +:+ nume existing +:+ dquote
  +:+ dept_info +:+ loc_info +:+ " exista deja.".

(** [EmployeeForm.clean_nume]; [nume] is [cleaned_data.get('nume')]. *)
Definition clean_nume (db : DB) (instance_pk : option Z) (nume' : option str) : Cleaned :=
  match nume' with
  | None => Clean None
  | Some n =>
      if negb (Str.truthy n) then Clean (Some n)
      else
        let qs := List.filter (fun r => Str.iexact (nume (snd r)) (Str.strip n))
                              (employees_by_nume db) in
        let qs := exclude_instance instance_pk qs in
        match first qs with
        | Some (_, existing) => ValidationError (msg_employee_exists db existing)
        | None => Clean (Some (Str.strip n))
        end
  end.

Definition msg_plate_format : str :=
  "Formatul numarului este invalid. Folositi doar litere, cifre si spatii. Exemplu: ABC 123".

Definition msg_plate_letters_digits : str :=
  "Numarul trebuie sa contina atat litere cat si cifre. Exemplu: ABC 123".

Definition msg_plate_exists (plate : str) : str :=
  "Un vehicul cu numarul " +:+ dquote +:+ plate +:+ dquote +:+ " exista deja.".

(** The rows of the [Vehicle] table in the order of its [Meta.ordering],
    [['plate_number']]; rows with the same plate in primary-key order. *)
Definition vehicles_by_plate (db : DB) : list (Z * Vehicle) :=
  stable_sort (fun a b => Str.leb (plate_number (snd a)) (plate_number (snd b)))
              (table_rows (vehicles db)).

(** [VehicleForm.clean_plate_number]. *)
Definition clean_plate_number (db : DB) (instance_pk : option Z)
    (plate_number' : option str) : Cleaned :=
  match plate_number' with
  | None => Clean None
  | Some raw =>
      if negb (Str.truthy raw) then Clean (Some raw)
      else
        let plate := upper (Str.strip raw) in
        if negb (plate_format plate) then ValidationError msg_plate_format
        else
          let has_letters := existsb is_upper_letter plate in
          let has_numbers := existsb is_digit plate in
          if negb has_letters || negb has_numbers
          then ValidationError msg_plate_letters_digits
          else
            let qs := List.filter (fun r => Str.iexact (plate_number (snd r)) plate)
                                  (vehicles_by_plate db) in
            let qs := exclude_instance instance_pk qs in
            match qs with
            | _ :: _ => ValidationError (msg_plate_exists plate)
            | [] => Clean (Some plate)
            end
  end.

(** ** Users and views ([core/models.py], [core/views.py]) *)

Definition is_admin (u : User) : bool :=
  bool_decide (role u = ADMIN) || is_superuser u.

Definition is_officer (u : User) : bool :=
  bool_decide (role u = OFFICER) && negb (is_superuser u).

(** What the views read of a request once the login check has passed: the
    user and the session's [current_location_id]. *)
Record Request : Type := mkRequest {
  user : User;
  current_location_id : option Z
}.

(** [LocationMixin.get_user_location]; the result is the primary key of the
    location, [None] when there is none. *)
Definition get_user_location (db : DB) (request : Request) : option Z :=
  if is_admin (user request) then
    match current_location_id request with
    | Some location_id =>
        if location_id =? 0 then None
        else
          match locations db !! location_id with
          | Some l => if loc_is_active l then Some location_id else None
          | None => None
          end
    | None => None
    end
  else user_location (user request).

(** An [HttpResponse] with its status, body and [HX-Trigger] header, or the
    [Http404] that [get_object_or_404] raises. *)
Inductive HttpResult : Type :=
| Http404
| HttpResponse (status : Z) (content : str) (hx_trigger : option str).

Definition alert (kind text : str) : str :=
  "<div class=" +:+ dquote +:+ "alert alert-" +:+ kind +:+ dquote +:+ ">"
  +:+ text +:+ "</div>".

Definition alert_dismissible (kind text : str) : str :=
  "<div class=" +:+ dquote +:+ "alert alert-" +:+ kind +:+ " alert-dismissible fade show"
  +:+ dquote +:+ " role=" +:+ dquote +:+ "alert" +:+ dquote +:+ ">"
  +:+ text
  +:+ "<button type=" +:+ dquote +:+ "button" +:+ dquote
  +:+ " class=" +:+ dquote +:+ "btn-close" +:+ dquote
  +:+ " data-bs-dismiss=" +:+ dquote +:+ "alert" +:+ dquote +:+ "></button>"
  +:+ "</div>".

(** [direction not in ['IN', 'OUT']] on the posted value, [None] when the
    field is missing. *)
Definition posted_direction (direction : option str) : option Direction :=
  match direction with
  | Some s => if Str.eqb s "IN" then Some IN
              else if Str.eqb s "OUT" then Some OUT else None
  | None => None
  end.

Definition action_label (d : Direction) : str :=
  match d with IN => "Intrare" | OUT => "Iesire" end.

Definition hx_refresh : str := "refreshPresent, refreshList".

(** The ids of the entities of one kind in a present-now listing. *)
Definition present_ids (t : EntityType) (present : list PresentRow) : list Z :=
  map p_entity_id (List.filter (fun p => bool_decide (p_entity_type p = t)) present).

(** [EmployeeEntryView.post]. *)
Definition employee_entry_post (db : DB) (request : Request) (direction : option str)
    (pk : Z) (now : Z) : HttpResult * DB :=
  match posted_direction direction with
  | None => (HttpResponse 400 (alert "danger" "Directie invalida") None, db)
  | Some d =>
      match active_employee db pk with
      | None => (Http404, db)
      | Some employee =>
          let location := get_user_location db request in
          let location :=
            match location with
            | None => if is_admin (user request) then Some (emp_location employee) else None
            | Some _ => location
            end in
          match location with
          | None =>
              (HttpResponse 400 (alert "warning" "Selectati o locatie intai") None, db)
          | Some loc =>
              if is_officer (user request) && bool_decide (d = IN)
                 && negb (emp_location employee =? loc)
              then (HttpResponse 403
                      (alert "warning"
                         "Puteti inregistra intrari doar pentru angajatii locatiei dvs.")
                      None, db)
              else if is_officer (user request) && bool_decide (d = OUT)
                      && negb (bool_decide
                                 (pk ∈ present_ids EMPLOYEE (get_present_now db (Some loc))))
              then (HttpResponse 403
                      (alert "warning" "Angajatul nu este prezent la aceasta locatie.")
                      None, db)
              else
                let '(db', (success, message)) :=
                  mark_employee_entry db pk d loc (user_pk (user request)) now in
                if success then
                  (HttpResponse 200
                     (alert_dismissible "success"
                        (nume employee +:+ ": " +:+ action_label d
                         +:+ " inregistrata cu succes"))
                     (Some hx_refresh), db')
                else
                  (HttpResponse 200
                     (alert_dismissible "warning" (default (Str.lit "None") message)) None, db')
          end
      end
  end.

(** [VehicleEntryView.post]. *)
Definition vehicle_entry_post (db : DB) (request : Request) (direction : option str)
    (pk : Z) (now now2 : Z) : HttpResult * DB :=
  match posted_direction direction with
  | None => (HttpResponse 400 (alert "danger" "Directie invalida") None, db)
  | Some d =>
      match active_vehicle db pk with
      | None => (Http404, db)
      | Some vehicle =>
          let location := get_user_location db request in
          let location :=
            match location with
            | None => if is_admin (user request) then Some (veh_location vehicle) else None
            | Some _ => location
            end in
          match location with
          | None =>
              (HttpResponse 400 (alert "warning" "Selectati o locatie intai") None, db)
          | Some loc =>
              if is_officer (user request) && bool_decide (d = IN)
                 && negb (veh_location vehicle =? loc)
              then (HttpResponse 403
                      (alert "warning"
                         "Puteti inregistra intrari doar pentru vehiculele locatiei dvs.")
                      None, db)
              else if is_officer (user request) && bool_decide (d = OUT)
                      && negb (bool_decide
                                 (pk ∈ present_ids VEHICLE (get_present_now db (Some loc))))
              then (HttpResponse 403
                      (alert "warning" "Vehiculul nu este prezent la aceasta locatie.")
                      None, db)
              else
                let '(db', (success, message)) :=
                  mark_vehicle_entry db pk d loc (user_pk (user request)) now now2 in
                if success then
                  (HttpResponse 200
                     (alert_dismissible "success"
                        (plate_number vehicle +:+ ": " +:+ action_label d
                         +:+ " inregistrata cu succes" +:+ default [] message))
                     (Some hx_refresh), db')
                else
                  (HttpResponse 200
                     (alert_dismissible "warning" (default (Str.lit "None") message)) None, db')
          end
      end
  end.

(** What [NavbarLocationPartial.get_context_data] adds to the context; a
    key that the branch taken does not set is [None]. *)
Record NavbarContext : Type := mkNavbarContext {
  nav_locations : option (list (Z * Location * nat));
  nav_total_present : option nat;
  nav_current_location : option (option Z);
  nav_present_counts : option nat
}.

(** [sum(counts.values())]. *)
Definition sum_values (counts : gmap Z nat) : nat :=
  map_fold (fun _ n acc => (n + acc)%nat) O counts.

(** [Location.objects.filter(is_active=True)], in the order of the model's
    [Meta.ordering], [['name']]. *)
Definition active_locations (db : DB) : list (Z * Location) :=
  List.filter (fun r => loc_is_active (snd r))
    (stable_sort (fun a b => Str.leb (loc_name (snd a)) (loc_name (snd b)))
                 (table_rows (locations db))).

Definition navbar_context (db : DB) (request : Request) : NavbarContext :=
  let counts := get_present_counts_by_location db true in
  if is_admin (user request) then
    let locs := map (fun r => (fst r, snd r, default O (counts !! fst r)))
                    (active_locations db) in
    match current_location_id request with
    | Some location_id =>
        if location_id =? 0
        then mkNavbarContext (Some locs) (Some (sum_values counts)) (Some None) None
        else mkNavbarContext (Some locs) (Some (sum_values counts))
               (Some (match locations db !! location_id with
                      | Some _ => Some location_id
                      | None => None
                      end))
               (Some (default O (counts !! location_id)))
    | None => mkNavbarContext (Some locs) (Some (sum_values counts)) (Some None) None
    end
  else
    mkNavbarContext None None (Some (user_location (user request)))
      (Some (match user_location (user request) with
             | Some l => default O (counts !! l)
             | None => O
             end)).

(** ** Vocabulary of the further properties *)

(** The events of one entity, in the order in which they were logged. *)
Definition entity_log (db : DB) (t : EntityType) (i : Z) : list LogEntry :=
  List.filter (is_entity t i) (log db).

(** Each event is stamped strictly after the ones logged before it. *)
Definition chronological (l : list LogEntry) : Prop :=
  StronglySorted (fun a b => timestamp a < timestamp b) l.

Definition flip (d : Direction) : Direction :=
  match d with IN => OUT | OUT => IN end.

(** The directions alternate, starting with [expected]. *)
Fixpoint alternates (expected : Direction) (l : list LogEntry) : Prop :=
  match l with
  | [] => True
  | e :: rest => direction e = expected /\ alternates (flip expected) rest
  end.

(** A log as the validator and a running clock leave it: for every entity
    the events are in chronological order and go IN, OUT, IN, ... *)
Definition well_formed (db : DB) : Prop :=
  forall t i, chronological (entity_log db t i) /\ alternates IN (entity_log db t i).

(** A row other than the saved instance a form edits; every row, for a form
    that creates one. *)
Definition is_other (instance_pk : option Z) (j : Z) : Prop :=
  match instance_pk with
  | Some pk => pk = 0 \/ j <> pk
  | None => True
  end.

(** The employees that have logged events, each once. *)
Definition logged_employees (db : DB) : list Z :=
  nodup Z.eq_dec
    (map entity_id (List.filter (fun e => bool_decide (entity_type e = EMPLOYEE)) (log db))).

(** The employee is present, the most recent of all its events being an IN
    logged at location [k]. *)
Definition present_at (db : DB) (k : Z) (i : Z) : bool :=
  match first (order_by_timestamp_desc (entity_log db EMPLOYEE i)) with
  | Some e => bool_decide (direction e = IN) && (location e =? k)
  | None => false
  end.

(** A string that neither starts nor ends with a character [str.strip]
    removes. *)
Definition trimmed (s : str) : Prop :=
  match s with [] => True | c :: _ => Str.is_whitespace c = false end /\
  match last s with None => True | Some c => Str.is_whitespace c = false end.

(** * Properties *)

(** ** Stable sorting *)

Section StableSortFacts.
Context {A : Type} (leb : A -> A -> bool).
Hypothesis leb_total : forall a b, leb a b = true \/ leb b a = true.
Hypothesis leb_trans : forall a b c, leb a b = true -> leb b c = true -> leb a c = true.

Lemma insert_sorted_perm (x : A) (l : list A) :
  Permutation (insert_sorted leb x l) (x :: l).
Proof.
  induction l as [|y ys IH]; simpl; [reflexivity|].
  destruct (leb x y); [reflexivity|].
  rewrite IH. apply perm_swap.
Qed.

Lemma stable_sort_perm (l : list A) : Permutation (stable_sort leb l) l.
Proof.
  induction l as [|x xs IH]; simpl; [reflexivity|].
  rewrite insert_sorted_perm. now constructor.
Qed.

Lemma stable_sort_In (x : A) (l : list A) : In x (stable_sort leb l) <-> In x l.
Proof.
  split; apply Permutation_in; [|symmetry]; apply stable_sort_perm.
Qed.

Lemma stable_sort_length (l : list A) : length (stable_sort leb l) = length l.
Proof. apply Permutation_length, stable_sort_perm. Qed.

Lemma insert_sorted_sorted (x : A) (l : list A) :
  sorted leb l -> sorted leb (insert_sorted leb x l).
Proof using leb_total leb_trans.
  unfold sorted. induction 1 as [|y ys Hs IH Hall]; simpl.
  - repeat constructor.
  - destruct (leb x y) eqn:Hxy.
    + constructor; [now constructor|].
      constructor; [exact Hxy|].
      eapply List.Forall_impl; [|exact Hall]. intros z Hz. eauto.
    + constructor; [exact IH|].
      apply List.Forall_forall. intros z Hz.
      apply (Permutation_in _ (insert_sorted_perm x ys)) in Hz.
      destruct Hz as [<-|Hz].
      * destruct (leb_total x y) as [H|H]; congruence.
      * rewrite List.Forall_forall in Hall. auto.
Qed.

Lemma stable_sort_sorted (l : list A) : sorted leb (stable_sort leb l).
Proof using leb_total leb_trans.
  induction l; simpl; [constructor|]. now apply insert_sorted_sorted.
Qed.

(** A list already in order is left as it is. *)
Lemma stable_sort_id (l : list A) : sorted leb l -> stable_sort leb l = l.
Proof.
  unfold sorted. induction 1 as [|y ys Hs IH Hall]; simpl; [reflexivity|].
  rewrite IH. destruct ys as [|z zs]; [reflexivity|].
  simpl. inversion Hall as [|? ? Hyz _]; subst. now rewrite Hyz.
Qed.

(** The first row of a sorted result is below all the rows. *)
Lemma first_stable_sort_least (l : list A) (h : A) :
  first (stable_sort leb l) = Some h ->
  In h l /\ forall x, In x l -> leb h x = true.
Proof using leb_total leb_trans.
  intros Hh. pose proof (stable_sort_sorted l) as Hs.
  destruct (stable_sort leb l) as [|h' t] eqn:E; [discriminate|].
  injection Hh as ->.
  assert (Hin : forall x, In x l <-> In x (h :: t)).
  { intros x. rewrite <- E. symmetry. apply stable_sort_In. }
  split; [apply Hin; now left|].
  intros x Hx. apply Hin in Hx. destruct Hx as [<-|Hx].
  - destruct (leb_total h h); assumption.
  - inversion Hs as [|? ? _ Hall]; subst. rewrite List.Forall_forall in Hall. auto.
Qed.

(** Selecting rows commutes with sorting them. *)
Lemma filter_insert_sorted (p : A -> bool) (x : A) (l : list A) :
  sorted leb l ->
  List.filter p (insert_sorted leb x l) =
  if p x then insert_sorted leb x (List.filter p l) else List.filter p l.
Proof using leb_trans.
  unfold sorted. induction 1 as [|y ys Hs IH Hall]; simpl.
  - now destruct (p x).
  - destruct (leb x y) eqn:Hxy; simpl.
    + destruct (p x) eqn:Hpx, (p y) eqn:Hpy; simpl; rewrite ?Hxy; try reflexivity.
      assert (Hx : Forall (fun z => leb x z = true) (List.filter p ys)).
      { apply List.Forall_forall. intros z Hz. apply filter_In in Hz as [Hz _].
        rewrite List.Forall_forall in Hall. eauto. }
      destruct (List.filter p ys) as [|z zs]; [reflexivity|].
      simpl. inversion Hx as [|? ? Hxz _]; subst. now rewrite Hxz.
    + rewrite IH. destruct (p x), (p y); simpl; rewrite ?Hxy; reflexivity.
Qed.

Lemma filter_stable_sort (p : A -> bool) (l : list A) :
  List.filter p (stable_sort leb l) = stable_sort leb (List.filter p l).
Proof using leb_total leb_trans.
  induction l as [|x xs IH]; simpl; [reflexivity|].
  rewrite filter_insert_sorted by apply stable_sort_sorted.
  rewrite IH. now destruct (p x).
Qed.
End StableSortFacts.

(** ** The most recent event of an entity *)

Lemma timestamp_desc_total (a b : LogEntry) :
  (timestamp b <=? timestamp a) = true \/ (timestamp a <=? timestamp b) = true.
Proof. rewrite !Z.leb_le. lia. Qed.

Lemma timestamp_desc_trans (a b c : LogEntry) :
  (timestamp b <=? timestamp a) = true -> (timestamp c <=? timestamp b) = true ->
  (timestamp c <=? timestamp a) = true.
Proof. rewrite !Z.leb_le. lia. Qed.

Lemma is_entity_true (t : EntityType) (i : Z) (e : LogEntry) :
  is_entity t i e = true <-> entity_type e = t /\ entity_id e = i.
Proof.
  unfold is_entity. rewrite andb_true_iff, bool_decide_eq_true, Z.eqb_eq. tauto.
Qed.

Lemma has_key_is_entity (t : EntityType) (i : Z) (e : LogEntry) :
  has_key (t, i) e = is_entity t i e.
Proof.
  unfold has_key, entity_key. destruct (is_entity t i e) eqn:E.
  - apply is_entity_true in E as [<- <-]. now apply bool_decide_eq_true_2.
  - apply bool_decide_eq_false_2. intros [= Ht Hi].
    assert (is_entity t i e = true) by (apply is_entity_true; auto). congruence.
Qed.

(** The first row in descending order carries the greatest timestamp. *)
Lemma first_desc_latest (l : list LogEntry) (h : LogEntry) :
  first (order_by_timestamp_desc l) = Some h ->
  In h l /\ forall x, In x l -> timestamp x <= timestamp h.
Proof.
  intros H.
  apply (first_stable_sort_least _ timestamp_desc_total timestamp_desc_trans) in H.
  destruct H as [Hin Hle]. split; [exact Hin|].
  intros x Hx. apply Z.leb_le. now apply Hle.
Qed.

(** A row stamped after all the others is the first one. *)
Lemma first_desc_newest (l : list LogEntry) (e : LogEntry) :
  (forall x, In x l -> timestamp x < timestamp e) ->
  first (order_by_timestamp_desc (l ++ [e])) = Some e.
Proof.
  intros Hlt.
  destruct (first (order_by_timestamp_desc (l ++ [e]))) as [h|] eqn:E.
  - apply first_desc_latest in E as [Hin Hmax].
    apply in_app_or in Hin as [Hin|[<-|[]]]; [|reflexivity].
    assert (He : In e (l ++ [e])) by (apply in_or_app; right; now left).
    specialize (Hmax e He).
    specialize (Hlt h Hin). lia.
  - unfold first, order_by_timestamp_desc in E.
    destruct (stable_sort _ (l ++ [e])) as [|? ?] eqn:E'; [|discriminate].
    apply (f_equal (@length _)) in E'. rewrite stable_sort_length, length_app in E'.
    simpl in E'. lia.
Qed.

Lemma get_last_direction_insert_row_same (db : DB) (t : EntityType) (i : Z)
    (d : Direction) (loc by_user now : Z) :
  (forall e, In e (log db) -> entity_type e = t -> entity_id e = i -> timestamp e < now) ->
  get_last_direction (insert_row db loc t i d by_user now) t i = Some d.
Proof.
  intros Hlt. unfold get_last_direction, insert_row. simpl.
  rewrite List.filter_app. simpl.
  assert (Hnew : is_entity t i (mkLogEntry loc t i d now (Some by_user)) = true)
    by (apply is_entity_true; now split).
  rewrite Hnew. rewrite first_desc_newest; [reflexivity|].
  intros x Hx. apply filter_In in Hx as [Hx Hk]. apply is_entity_true in Hk as [? ?].
  simpl. auto.
Qed.

Lemma get_last_direction_insert_row_other (db : DB) (t t' : EntityType) (i i' : Z)
    (d : Direction) (loc by_user now : Z) :
  (t', i') <> (t, i) ->
  get_last_direction (insert_row db loc t' i' d by_user now) t i = get_last_direction db t i.
Proof.
  intros Hne. unfold get_last_direction, insert_row. simpl.
  rewrite List.filter_app. simpl.
  destruct (is_entity t i _) eqn:Hk.
  - apply is_entity_true in Hk as [? ?]. simpl in *. congruence.
  - now rewrite app_nil_r.
Qed.

(** ** Saving a row *)

Lemma create_cases (db : DB) (loc : Z) (t : EntityType) (i : Z) (d : Direction)
    (by_user now : Z) :
  (foreign_keys_hold db loc by_user = true /\
   create db loc t i d by_user now = Saved (insert_row db loc t i d by_user now)) \/
  (foreign_keys_hold db loc by_user = false /\
   create db loc t i d by_user now = Raised msg_foreign_key).
Proof. unfold create. destruct (foreign_keys_hold db loc by_user); auto. Qed.

(** The foreign keys hold exactly when the location and the user have a row. *)
Lemma foreign_keys_hold_true (db : DB) (loc by_user : Z) :
  foreign_keys_hold db loc by_user = true <->
  is_Some (locations db !! loc) /\ is_Some (users db !! by_user).
Proof.
  unfold foreign_keys_hold. now rewrite andb_true_iff, !bool_decide_eq_true.
Qed.

(** The outcome of recording an employee event: refused with nothing
    written, or accepted with the one row written. *)
Lemma mark_employee_entry_cases (db : DB) (i : Z) (d : Direction) (loc by_user now : Z) :
  (fst (snd (mark_employee_entry db i d loc by_user now)) = false /\
   fst (mark_employee_entry db i d loc by_user now) = db) \/
  (fst (snd (mark_employee_entry db i d loc by_user now)) = true /\
   fst (mark_employee_entry db i d loc by_user now) = insert_row db loc EMPLOYEE i d by_user now /\
   is_Some (active_employee db i) /\
   is_entity_present db EMPLOYEE i = bool_decide (d = OUT)).
Proof.
  unfold mark_employee_entry, is_entity_present.
  destruct (active_employee db i) as [e|]; [|now left]. cbv zeta.
  destruct (create_cases db loc EMPLOYEE i d by_user now) as [[_ ->]|[_ ->]];
    destruct d, (bool_decide (get_last_direction db EMPLOYEE i = Some IN)); simpl;
    first [ now left | right; eauto 6 ].
Qed.

(** The second [create] of the linker names the location and the user of
    the first: it is not refused. *)
Lemma create_again (db : DB) (loc by_user : Z) (t t' : EntityType) (i i' : Z)
    (d d' : Direction) (now now2 : Z) :
  foreign_keys_hold db loc by_user = true ->
  create (insert_row db loc t i d by_user now) loc t' i' d' by_user now2 =
  Saved (insert_row (insert_row db loc t i d by_user now) loc t' i' d' by_user now2).
Proof.
  intros H. unfold create.
  change (foreign_keys_hold (insert_row db loc t i d by_user now) loc by_user)
    with (foreign_keys_hold db loc by_user).
  now rewrite H.
Qed.

Lemma mark_vehicle_entry_cases (db : DB) (i : Z) (d : Direction) (loc by_user now now2 : Z) :
  (fst (snd (mark_vehicle_entry db i d loc by_user now now2)) = false /\
   fst (mark_vehicle_entry db i d loc by_user now now2) = db) \/
  (fst (snd (mark_vehicle_entry db i d loc by_user now now2)) = true /\
   is_entity_present db VEHICLE i = bool_decide (d = OUT) /\
   exists v, active_vehicle db i = Some v /\
     let db1 := insert_row db loc VEHICLE i d by_user now in
     match owner_employee db v with
     | Some (j, _) =>
         if should_mark d (get_last_direction db EMPLOYEE j)
         then fst (mark_vehicle_entry db i d loc by_user now now2)
              = insert_row db1 loc EMPLOYEE j d by_user now2
         else fst (mark_vehicle_entry db i d loc by_user now now2) = db1
     | None => fst (mark_vehicle_entry db i d loc by_user now now2) = db1
     end).
Proof.
  unfold mark_vehicle_entry, is_entity_present.
  destruct (active_vehicle db i) as [v|]; [|now left]. cbv zeta.
  destruct (bool_decide (d = IN) && _) eqn:E1; [now left|].
  destruct (bool_decide (d = OUT) && _) eqn:E2; [now left|].
  destruct (create_cases db loc VEHICLE i d by_user now) as [[Hfk ->]|[_ ->]];
    [right|now left].
  cbv beta iota.
  change (owner_employee (insert_row db loc VEHICLE i d by_user now) v)
    with (owner_employee db v).
  assert (Hp : bool_decide (get_last_direction db VEHICLE i = Some IN) = bool_decide (d = OUT)).
  { destruct d, (bool_decide (get_last_direction db VEHICLE i = Some IN));
      simpl in *; congruence. }
  assert (Hmark : forall j,
            get_last_direction (insert_row db loc VEHICLE i d by_user now) EMPLOYEE j
            = get_last_direction db EMPLOYEE j).
  { intros j. apply get_last_direction_insert_row_other. congruence. }
  split; [|split; [exact Hp|exists v; split; [reflexivity|]]].
  - destruct (owner_employee db v) as [[j e]|]; [|reflexivity].
    rewrite (create_again db loc by_user VEHICLE EMPLOYEE i j d d now now2 Hfk).
    now destruct (should_mark d _).
  - cbv zeta. destruct (owner_employee db v) as [[j e]|]; [|reflexivity].
    rewrite Hmark.
    rewrite (create_again db loc by_user VEHICLE EMPLOYEE i j d d now now2 Hfk).
    now destruct (should_mark d _).
Qed.

(** An event is only accepted with its foreign keys in place. *)
Lemma accepted_foreign_keys (db : DB) (i : Z) (d : Direction) (loc by_user now now2 : Z) :
  (fst (snd (mark_employee_entry db i d loc by_user now)) = true ->
   foreign_keys_hold db loc by_user = true) /\
  (fst (snd (mark_vehicle_entry db i d loc by_user now now2)) = true ->
   foreign_keys_hold db loc by_user = true).
Proof.
  unfold mark_employee_entry, mark_vehicle_entry. split.
  - destruct (active_employee db i); [|discriminate]. cbv zeta.
    destruct (_ && _); [discriminate|]. destruct (_ && _); [discriminate|].
    destruct (create_cases db loc EMPLOYEE i d by_user now) as [[H ->]|[_ ->]];
      [auto|discriminate].
  - destruct (active_vehicle db i); [|discriminate]. cbv zeta.
    destruct (_ && _); [discriminate|]. destruct (_ && _); [discriminate|].
    destruct (create_cases db loc VEHICLE i d by_user now) as [[H ->]|[_ ->]];
      [auto|discriminate].
Qed.

(** ** The entry/exit validator *)

(** The message for a missing entity is none of the four rejection messages
    of the state machine, whatever name these quote. *)
Lemma not_found_is_not_invalid_transition (o : Outcome) :
  NotFound o -> ~ InvalidTransition o.
Proof.
  intros Hn Hi.
  assert (Hdot : exists m, o = (false, Some m) /\ last m = Some 46).
  { destruct Hi; eexists; (split; [reflexivity|]);
      unfold msg_employee_already_in, msg_employee_not_in,
             msg_vehicle_already_in, msg_vehicle_not_in, Str.append;
      rewrite !last_app; reflexivity. }
  destruct Hdot as (m & -> & Hm).
  inversion Hn; subst; vm_compute in Hm; discriminate.
Qed.

(** C2, as stated, fails: employee 7 is inside (the last event is an IN) but
    deactivated, and a second IN is refused as "not found", which is not the
    rejection of the state machine. *)
Lemma deactivated_entity_is_not_found :
  get_last_direction Examples.deactivated_inside EMPLOYEE 7 = Some IN /\
  NotFound (snd (mark_employee_entry Examples.deactivated_inside 7 IN 1 100 20)) /\
  ~ InvalidTransition (snd (mark_employee_entry Examples.deactivated_inside 7 IN 1 100 20)).
Proof.
  split; [reflexivity|].
  assert (H : NotFound (snd (mark_employee_entry Examples.deactivated_inside 7 IN 1 100 20)))
    by (vm_compute; constructor).
  split; [exact H|]. now apply not_found_is_not_invalid_transition.
Qed.

(** C2, amended: for every entity that exists and is active, an IN while the
    most recent event is an IN, and an OUT while the most recent event is not
    an IN (or there is none), are rejected with the message of the state
    machine, and the tables, the log among them, are left as they were; for
    every entity that is missing or deactivated an event of either direction
    is refused with the not-found message, and the tables are left as they
    were just the same. *)
Theorem invalid_transition_rejected (db : DB) (i loc by_user now now2 : Z) :
  (forall e, active_employee db i = Some e ->
     (get_last_direction db EMPLOYEE i = Some IN ->
      let r := mark_employee_entry db i IN loc by_user now in
      fst r = db /\ snd r = (false, Some (msg_employee_already_in (nume e)))
      /\ InvalidTransition (snd r)) /\
     (get_last_direction db EMPLOYEE i <> Some IN ->
      let r := mark_employee_entry db i OUT loc by_user now in
      fst r = db /\ snd r = (false, Some (msg_employee_not_in (nume e)))
      /\ InvalidTransition (snd r))) /\
  (forall v, active_vehicle db i = Some v ->
     (get_last_direction db VEHICLE i = Some IN ->
      let r := mark_vehicle_entry db i IN loc by_user now now2 in
      fst r = db /\ snd r = (false, Some (msg_vehicle_already_in (plate_number v)))
      /\ InvalidTransition (snd r)) /\
     (get_last_direction db VEHICLE i <> Some IN ->
      let r := mark_vehicle_entry db i OUT loc by_user now now2 in
      fst r = db /\ snd r = (false, Some (msg_vehicle_not_in (plate_number v)))
      /\ InvalidTransition (snd r))) /\
  (employees db !! i = None \/
   (exists e, employees db !! i = Some e /\ emp_activ e = false) ->
   forall d,
     let r := mark_employee_entry db i d loc by_user now in
     fst r = db /\ snd r = (false, Some msg_employee_not_found) /\ NotFound (snd r)) /\
  (vehicles db !! i = None \/
   (exists v, vehicles db !! i = Some v /\ veh_activ v = false) ->
   forall d,
     let r := mark_vehicle_entry db i d loc by_user now now2 in
     fst r = db /\ snd r = (false, Some msg_vehicle_not_found) /\ NotFound (snd r)).
Proof.
  split; [|split; [|split]].
  - intros e He. unfold mark_employee_entry. rewrite He. split; intros Hl.
    + rewrite Hl. simpl. repeat split. constructor.
    + rewrite (bool_decide_eq_false_2 _ Hl). simpl. repeat split. constructor.
  - intros v Hv. unfold mark_vehicle_entry. rewrite Hv. split; intros Hl.
    + rewrite Hl. simpl. repeat split. constructor.
    + rewrite (bool_decide_eq_false_2 _ Hl). simpl. repeat split. constructor.
  - intros Hgone d.
    assert (Hnone : active_employee db i = None).
    { unfold active_employee. destruct Hgone as [->|(e & -> & ->)]; reflexivity. }
    unfold mark_employee_entry. rewrite Hnone. simpl. repeat split. constructor.
  - intros Hgone d.
    assert (Hnone : active_vehicle db i = None).
    { unfold active_vehicle. destruct Hgone as [->|(v & -> & ->)]; reflexivity. }
    unfold mark_vehicle_entry. rewrite Hnone. simpl. repeat split. constructor.
Qed.

Lemma invalid_transition_rejected_witness :
  fst (mark_employee_entry Examples.inside 7 IN 2 100 20) = Examples.inside /\
  fst (mark_vehicle_entry Examples.inside 3 OUT 2 100 20 21) = Examples.inside /\
  snd (mark_employee_entry Examples.deactivated_inside 7 OUT 2 100 20)
    = (false, Some msg_employee_not_found) /\
  snd (mark_vehicle_entry Examples.inside 4 IN 2 100 20 21)
    = (false, Some msg_vehicle_not_found).
Proof.
  pose proof (invalid_transition_rejected Examples.inside 7 2 100 20 21) as (He & _).
  pose proof (invalid_transition_rejected Examples.inside 3 2 100 20 21) as (_ & Hv & _).
  pose proof (invalid_transition_rejected Examples.deactivated_inside 7 2 100 20 21)
    as (_ & _ & Hd & _).
  pose proof (invalid_transition_rejected Examples.inside 4 2 100 20 21) as (_ & _ & _ & Hm).
  split; [|split; [|split]].
  - apply (He Examples.jane); reflexivity.
  - apply (Hv Examples.car); [reflexivity|]. vm_compute. discriminate.
  - apply Hd. right. exists Examples.jane_deactivated. split; reflexivity.
  - apply Hm. left. reflexivity.
Defined.




(** ** The ownership linker *)



Lemma table_rows_In {R : Type} (table : gmap Z R) (j : Z) (r : R) :
  In (j, r) (table_rows table) <-> table !! j = Some r.
Proof.
  unfold table_rows. rewrite stable_sort_In, <- list_elem_of_In.
  apply elem_of_map_to_list.
Qed.

Lemma employees_by_nume_In (db : DB) (j : Z) (e : Employee) :
  In (j, e) (employees_by_nume db) <-> employees db !! j = Some e.
Proof. unfold employees_by_nume. rewrite stable_sort_In. apply table_rows_In. Qed.





(** ** The presence resolver *)

(** C1 fails on the code. Employee 7 entered at location 1 and left through
    location 2, so the most recent event over all locations is an OUT; the
    listing for location 1 still shows the employee, with the entry time of
    the superseded IN, because the location condition selects the rows before
    the window picks the latest one. The unfiltered listing and the counts
    per location, which window the whole log, show nobody. *)
Lemma present_list_windows_within_location :
  get_last_direction Examples.left_elsewhere EMPLOYEE 7 = Some OUT /\
  is_entity_present Examples.left_elsewhere EMPLOYEE 7 = false /\
  map (fun p => (p_entity_type p, p_entity_id p, p_entry_time p))
      (get_present_now Examples.left_elsewhere (Some 1)) = [(EMPLOYEE, 7, 10)] /\
  get_present_now Examples.left_elsewhere None = [] /\
  get_present_counts_by_location Examples.left_elsewhere false !! 1 = None.
Proof. repeat split; vm_compute; reflexivity. Qed.

Lemma present_row_entity (es : gmap Z Employee) (vs : gmap Z Vehicle)
    (ls : gmap Z Location) (r : LogEntry) (p : PresentRow) :
  present_row es vs ls r = Some p ->
  p_entity_type p = entity_type r /\ p_entity_id p = entity_id r /\
  match entity_type r with
  | EMPLOYEE => is_Some (es !! entity_id r)
  | VEHICLE => is_Some (vs !! entity_id r)
  end.
Proof.
  unfold present_row. destruct (entity_type r).
  - destruct (es !! entity_id r) eqn:E; [|discriminate].
    intros [= <-]. simpl. eauto.
  - destruct (vs !! entity_id r) eqn:E; [|discriminate].
    intros [= <-]. simpl. eauto.
Qed.

Lemma fetch_by_ids_is_Some {R : Type} (table : gmap Z R) (ids : list Z) (i : Z) :
  is_Some (fetch_by_ids table ids !! i) -> is_Some (table !! i).
Proof.
  intros [x Hx]. unfold fetch_by_ids in Hx.
  apply map_lookup_filter_Some in Hx as [Hx _]. eauto.
Qed.

(** Every listed row is backed by a row of the entity's table. *)
Lemma get_present_now_registered (db : DB) (loc : option Z) (p : PresentRow) :
  In p (get_present_now db loc) ->
  match p_entity_type p with
  | EMPLOYEE => is_Some (employees db !! p_entity_id p)
  | VEHICLE => is_Some (vehicles db !! p_entity_id p)
  end.
Proof.
  unfold get_present_now. intros Hp.
  apply list_elem_of_In, list_elem_of_omap in Hp as (r & _ & Hr).
  apply present_row_entity in Hr as (-> & -> & Hr).
  destruct (entity_type r); eapply fetch_by_ids_is_Some; exact Hr.
Qed.

(** *** What the listing computes *)

Lemma partition_keys_In (rows : list LogEntry) (k : EntityType * Z) :
  In k (partition_keys rows) <-> exists e, In e rows /\ entity_key e = k.
Proof.
  induction rows as [|e rest IH]; simpl.
  - split; [tauto | intros (? & [] & _)].
  - rewrite filter_In, IH, negb_true_iff, bool_decide_eq_false. split.
    + intros [<-|[(x & Hx & <-) _]]; eauto.
    + intros (x & [<-|Hx] & <-); [now left|].
      destruct (decide (entity_key x = entity_key e)) as [Heq|Hne]; [now left|].
      right. eauto.
Qed.

(** Row number one is the first row of the ordered partition. *)
Lemma row_number_one (partition : list LogEntry) (r : LogEntry) :
  In (1%nat, r) (row_number partition) <->
  first (order_by_timestamp_desc partition) = Some r.
Proof.
  unfold row_number, order_by_timestamp_desc.
  rewrite <- (stable_sort_length (fun a b => timestamp b <=? timestamp a) partition).
  destruct (stable_sort _ partition) as [|h t]; simpl.
  - split; [tauto | discriminate].
  - split.
    + intros [[= ->]|Hin]; [reflexivity|].
      apply in_combine_l, in_seq in Hin. lia.
    + intros [= ->]. now left.
Qed.

(** The rows the query returns are the latest rows of the partitions of the
    selected events that are an IN. *)
Lemma select_present_In (rows : list LogEntry) (r : LogEntry) :
  In r (select_present (last_events rows)) <->
  first (order_by_timestamp_desc (List.filter (has_key (entity_key r)) rows)) = Some r /\
  direction r = IN.
Proof.
  unfold select_present, order_by_timestamp_desc at 1.
  rewrite stable_sort_In, in_map_iff. unfold last_events. split.
  - intros ([n x] & <- & Hx). simpl.
    apply filter_In in Hx as [Hx Hp]. simpl in Hp.
    apply andb_true_iff in Hp as [Hn Hd].
    apply Nat.eqb_eq in Hn as ->. apply bool_decide_eq_true in Hd.
    apply in_flat_map in Hx as (k & _ & Hx). apply row_number_one in Hx.
    split; [|exact Hd].
    pose proof (first_desc_latest _ _ Hx) as [Hin _].
    apply filter_In in Hin as [_ Hk]. apply bool_decide_eq_true in Hk.
    now rewrite Hk.
  - intros [Hf Hd]. exists (1%nat, r). split; [reflexivity|].
    apply filter_In. split.
    + apply in_flat_map. exists (entity_key r). split; [|now apply row_number_one].
      apply partition_keys_In. exists r. split; [|reflexivity].
      apply first_desc_latest in Hf as [Hin _]. now apply filter_In in Hin as [? _].
    + simpl. now rewrite bool_decide_eq_true_2.
Qed.

Lemma present_rows_In (db : DB) (loc : option Z) (r : LogEntry) :
  In r (present_rows db loc) <->
  first (order_by_timestamp_desc
           (List.filter (has_key (entity_key r)) (log (at_location db loc)))) = Some r /\
  direction r = IN.
Proof. unfold present_rows. destruct loc; apply select_present_In. Qed.

(** The listing for a location, or for all of them, holds an entity exactly
    when the entity has its table row and the latest of its events among
    those of that location, or of all locations, is an IN. *)
Lemma get_present_now_lists (db : DB) (loc : option Z) (t : EntityType) (i : Z) :
  (exists p, In p (get_present_now db loc) /\ (p_entity_type p, p_entity_id p) = (t, i)) <->
  registered db t i /\ get_last_direction (at_location db loc) t i = Some IN.
Proof.
  unfold get_present_now, get_last_direction.
  rewrite (List.filter_ext _ _ (fun e => eq_sym (has_key_is_entity t i e))).
  split.
  - intros (p & Hp & Hk).
    apply list_elem_of_In, list_elem_of_omap in Hp as (r & Hr & Hrow).
    apply list_elem_of_In, present_rows_In in Hr as [Hf Hd].
    apply present_row_entity in Hrow as (Ht & Hi & Hreg).
    assert (Hkey : entity_key r = (t, i)) by (unfold entity_key; congruence).
    rewrite Hkey in Hf. rewrite Hf, Hd. split; [|reflexivity].
    injection Hkey as <- <-. unfold registered.
    destruct (entity_type r); eapply fetch_by_ids_is_Some; exact Hreg.
  - intros [Hreg Hlast].
    destruct (first _) as [r|] eqn:Hf; [|discriminate].
    injection Hlast as Hd.
    pose proof (first_desc_latest _ _ Hf) as [Hin _].
    apply filter_In in Hin as [_ Hk]. apply bool_decide_eq_true in Hk.
    assert (Hr : In r (present_rows db loc)).
    { apply present_rows_In. rewrite Hk. now split. }
    injection Hk as Ht Hi.
    set (rows := present_rows db loc) in *.
    assert (Hrow : exists p,
               present_row
                 (fetch_by_ids (employees db)
                    (map entity_id (List.filter (fun r => bool_decide (entity_type r = EMPLOYEE)) rows)))
                 (fetch_by_ids (vehicles db)
                    (map entity_id (List.filter (fun r => bool_decide (entity_type r = VEHICLE)) rows)))
                 (locations db) r = Some p).
    { unfold present_row, registered in *. subst t i.
      destruct (entity_type r) eqn:Et; destruct Hreg as [x Hx].
      - assert (Hl : fetch_by_ids (employees db)
                       (map entity_id (List.filter (fun r => bool_decide (entity_type r = EMPLOYEE)) rows))
                       !! entity_id r = Some x).
        { apply map_lookup_filter_Some. split; [exact Hx|]. simpl.
          apply list_elem_of_In, in_map, filter_In. split; [exact Hr|].
          now apply bool_decide_eq_true_2. }
        rewrite Hl. eauto.
      - assert (Hl : fetch_by_ids (vehicles db)
                       (map entity_id (List.filter (fun r => bool_decide (entity_type r = VEHICLE)) rows))
                       !! entity_id r = Some x).
        { apply map_lookup_filter_Some. split; [exact Hx|]. simpl.
          apply list_elem_of_In, in_map, filter_In. split; [exact Hr|].
          now apply bool_decide_eq_true_2. }
        rewrite Hl. eauto. }
    destruct Hrow as [p Hp]. exists p. split.
    + apply list_elem_of_In, list_elem_of_omap. exists r. split; [|exact Hp].
      now apply list_elem_of_In.
    + apply present_row_entity in Hp as (-> & -> & _). congruence.
Qed.

(** C9: an entity whose most recent event is an IN and whose [Employee] or
    [Vehicle] row is gone is reported present by [is_entity_present] and is
    in no row of [get_present_now], with or without a location. *)
Theorem deleted_entity_present_but_unlisted (db : DB) (t : EntityType) (i : Z) :
  get_last_direction db t i = Some IN ->
  match t with
  | EMPLOYEE => employees db !! i = None
  | VEHICLE => vehicles db !! i = None
  end ->
  is_entity_present db t i = true /\
  forall loc p, In p (get_present_now db loc) ->
                (p_entity_type p, p_entity_id p) <> (t, i).
Proof.
  intros Hlast Hgone. split.
  - unfold is_entity_present. now apply bool_decide_eq_true_2.
  - intros loc p Hp [= Ht Hi]. apply get_present_now_registered in Hp.
    rewrite Ht, Hi in Hp. destruct t; rewrite Hgone in Hp; now destruct Hp.
Qed.

Lemma deleted_entity_present_but_unlisted_witness :
  is_entity_present Examples.deleted_inside EMPLOYEE 7 = true /\
  forall loc p, In p (get_present_now Examples.deleted_inside loc) ->
                (p_entity_type p, p_entity_id p) <> (EMPLOYEE, 7).
Proof.
  apply (deleted_entity_present_but_unlisted Examples.deleted_inside EMPLOYEE 7);
    reflexivity.
Defined.

(** ** The visit aggregator: the date range *)

Lemma visit_entries_In (db : DB) (loc date_from date_to : option Z)
    (etf : option EntityType) (e : LogEntry) :
  In e (visit_entries db loc date_from date_to etf) <->
  In e (log db) /\ visit_filter loc date_from date_to etf e = true.
Proof. unfold visit_entries. now rewrite stable_sort_In, filter_In. Qed.

(** C5, as stated, fails: with the range from day 3 to day 5 the event of
    employee 7 dated day 5, the end of the range, is among the entries
    considered, and it opens a visit of the result. *)
Lemma date_to_is_included :
  let e := mkLogEntry 1 EMPLOYEE 7 IN (5 * microseconds_per_day + 9 * Examples.hour) (Some 100) in
  date_of (timestamp e) = 5 /\
  In e (visit_entries Examples.week None (Some 3) (Some 5) None) /\
  In (5 * microseconds_per_day + 9 * Examples.hour)
     (map v_entry_time (get_visit_history Examples.week None (Some 3) (Some 5) None 500)).
Proof.
  split; [reflexivity|]. split.
  - apply visit_entries_In. split; [now left|reflexivity].
  - vm_compute. auto.
Qed.

(** C5, amended: with both bounds given, the entries considered are those of
    the otherwise filtered log whose date lies in the closed range: from
    [date_from] to [date_to], both included. *)
Theorem date_range_is_closed (db : DB) (loc : option Z) (date_from date_to : Z)
    (etf : option EntityType) (e : LogEntry) :
  In e (visit_entries db loc (Some date_from) (Some date_to) etf) <->
  In e (visit_entries db loc None None etf) /\
  date_from <= date_of (timestamp e) <= date_to.
Proof.
  rewrite !visit_entries_In. unfold visit_filter.
  rewrite !andb_true_iff, !Z.leb_le. tauto.
Qed.

(** ** The visit aggregator: grouping and the visits of one entity *)

Lemma pair_loop_app (db : DB) (etype : EntityType) (eid : Z) (st : PairState)
    (l1 l2 : list LogEntry) :
  pair_loop db etype eid st (l1 ++ l2) =
  pair_loop db etype eid (pair_loop db etype eid st l1) l2.
Proof. unfold pair_loop. apply fold_left_app. Qed.

(** The loop only ever appends to the visits it was given. *)
Lemma pair_loop_acc (db : DB) (etype : EntityType) (eid : Z)
    (slot : option LogEntry) (acc : list Visit) (elist : list LogEntry) :
  pair_loop db etype eid (slot, acc) elist =
  (fst (pair_loop db etype eid (slot, []) elist),
   acc ++ snd (pair_loop db etype eid (slot, []) elist)).
Proof.
  revert slot acc. induction elist as [|e rest IH]; intros slot acc; simpl.
  - now rewrite app_nil_r.
  - destruct (direction e); [apply IH|].
    destruct slot as [c|]; [|apply IH].
    rewrite IH. rewrite (IH None [_]). simpl. now rewrite <- app_assoc.
Qed.

Lemma pair_entity_acc (db : DB) (acc : list Visit)
    (group : (EntityType * Z) * list LogEntry) :
  pair_entity db acc group = acc ++ pair_entity db [] group.
Proof.
  destruct group as [[etype eid] elist]. unfold pair_entity.
  rewrite pair_loop_acc.
  destruct (pair_loop db etype eid (None, []) elist) as [slot vs]. simpl.
  destruct slot; [now rewrite <- app_assoc | reflexivity].
Qed.

Lemma fold_pair_entity (db : DB) (groups : list ((EntityType * Z) * list LogEntry))
    (acc : list Visit) :
  fold_left (pair_entity db) groups acc = acc ++ flat_map (pair_entity db []) groups.
Proof.
  revert acc. induction groups as [|g rest IH]; intros acc; simpl.
  - now rewrite app_nil_r.
  - rewrite IH, pair_entity_acc. now rewrite <- app_assoc.
Qed.

(** Every visit carries the key of the group it was paired in. *)
Lemma pair_loop_key (db : DB) (etype : EntityType) (eid : Z)
    (slot : option LogEntry) (elist : list LogEntry) (v : Visit) :
  In v (snd (pair_loop db etype eid (slot, []) elist)) ->
  (v_entity_type v, v_entity_id v) = (etype, eid).
Proof.
  revert slot. induction elist as [|e rest IH]; intros slot; simpl; [tauto|].
  destruct (direction e); [apply IH|].
  destruct slot as [c|]; [|apply IH].
  rewrite pair_loop_acc. simpl. intros [<-|Hv]; [reflexivity|]. eapply IH, Hv.
Qed.

Lemma pair_entity_key (db : DB) (key : EntityType * Z) (elist : list LogEntry) (v : Visit) :
  In v (pair_entity db [] (key, elist)) -> (v_entity_type v, v_entity_id v) = key.
Proof.
  destruct key as [etype eid]. unfold pair_entity.
  destruct (pair_loop db etype eid (None, []) elist) as [slot vs] eqn:E.
  assert (Hvs : forall v, In v vs -> (v_entity_type v, v_entity_id v) = (etype, eid)).
  { intros w Hw. apply (pair_loop_key db etype eid None elist). now rewrite E. }
  destruct slot as [c|]; [|apply Hvs].
  intros Hv. apply in_app_or in Hv as [Hv|[<-|[]]]; [now apply Hvs | reflexivity].
Qed.

Lemma filter_all {A : Type} (p : A -> bool) (l : list A) :
  (forall x, In x l -> p x = true) -> List.filter p l = l.
Proof.
  induction l as [|x xs IH]; intros H; simpl; [reflexivity|].
  rewrite (H x (or_introl eq_refl)), IH; [reflexivity|]. intros y Hy. apply H. now right.
Qed.

Lemma filter_none {A : Type} (p : A -> bool) (l : list A) :
  (forall x, In x l -> p x = false) -> List.filter p l = [].
Proof.
  induction l as [|x xs IH]; intros H; simpl; [reflexivity|].
  rewrite (H x (or_introl eq_refl)). apply IH. intros y Hy. apply H. now right.
Qed.

Lemma group_of_absent (key : EntityType * Z)
    (groups : list ((EntityType * Z) * list LogEntry)) :
  ~ In key (map fst groups) -> group_of key groups = [].
Proof.
  induction groups as [|[k l] rest IH]; simpl; [reflexivity|].
  intros Hn. rewrite bool_decide_eq_false_2 by tauto. apply IH. tauto.
Qed.

(** With each key filed once, the visits of an entity in the visits of all
    the groups are the visits paired from the entity's own entries. *)
Lemma visits_of_entity (db : DB) (key : EntityType * Z)
    (groups : list ((EntityType * Z) * list LogEntry)) :
  List.NoDup (map fst groups) ->
  List.filter (visit_of key) (flat_map (pair_entity db []) groups) =
  pair_entity db [] (key, group_of key groups).
Proof.
  induction groups as [|[k l] rest IH]; simpl; intros Hnd.
  - now destruct key.
  - inversion Hnd as [|? ? Hk Hrest]; subst. rewrite List.filter_app, (IH Hrest).
    destruct (decide (k = key)) as [->|Hne].
    + rewrite bool_decide_eq_true_2 by reflexivity.
      rewrite (group_of_absent _ _ Hk). rewrite filter_all.
      * destruct key. simpl. now rewrite app_nil_r.
      * intros v Hv. apply bool_decide_eq_true_2. eapply pair_entity_key, Hv.
    + rewrite bool_decide_eq_false_2 by exact Hne. rewrite filter_none; [reflexivity|].
      intros v Hv. apply bool_decide_eq_false_2.
      apply pair_entity_key in Hv. congruence.
Qed.

Lemma group_append_keys (key : EntityType * Z) (entry : LogEntry)
    (groups : list ((EntityType * Z) * list LogEntry)) :
  map fst (group_append key entry groups) = map fst groups \/
  (~ In key (map fst groups) /\
   map fst (group_append key entry groups) = map fst groups ++ [key]).
Proof.
  induction groups as [|[k l] rest IH]; simpl; [right; tauto|].
  destruct (decide (k = key)) as [->|Hne].
  - rewrite bool_decide_eq_true_2 by reflexivity. now left.
  - rewrite bool_decide_eq_false_2 by exact Hne. simpl.
    destruct IH as [->|[Hin ->]]; [now left|]. right. tauto.
Qed.

Lemma group_append_NoDup (key : EntityType * Z) (entry : LogEntry)
    (groups : list ((EntityType * Z) * list LogEntry)) :
  List.NoDup (map fst groups) -> List.NoDup (map fst (group_append key entry groups)).
Proof.
  intros Hnd. destruct (group_append_keys key entry groups) as [->|[Hin ->]];
    [exact Hnd|].
  apply List.NoDup_app; [exact Hnd | repeat constructor; auto | ].
  intros x Hx [<-|[]]. contradiction.
Qed.

Lemma group_of_append (key k : EntityType * Z) (entry : LogEntry)
    (groups : list ((EntityType * Z) * list LogEntry)) :
  group_of k (group_append key entry groups) =
  if bool_decide (key = k) then group_of k groups ++ [entry] else group_of k groups.
Proof.
  induction groups as [|[k' l] rest IH]; simpl.
  - destruct (decide (key = k)) as [->|Hne].
    + now rewrite !bool_decide_eq_true_2.
    + now rewrite !bool_decide_eq_false_2.
  - destruct (decide (k' = key)) as [->|Hne]; simpl.
    + rewrite bool_decide_eq_true_2 by reflexivity. simpl.
      destruct (decide (key = k)) as [->|Hk].
      * now rewrite !bool_decide_eq_true_2.
      * now rewrite !bool_decide_eq_false_2.
    + rewrite (bool_decide_eq_false_2 _ Hne). simpl.
      destruct (decide (k' = k)) as [->|Hk'].
      * rewrite bool_decide_eq_true_2 by reflexivity.
        rewrite bool_decide_eq_false_2 by congruence. reflexivity.
      * rewrite (bool_decide_eq_false_2 _ Hk'). apply IH.
Qed.

(** The dictionary files each key once, with the entries of that key in the
    order in which they were read. *)
Lemma entity_entries_spec (entries : list LogEntry) :
  List.NoDup (map fst (entity_entries entries)) /\
  forall k, group_of k (entity_entries entries) = List.filter (has_key k) entries.
Proof.
  unfold entity_entries.
  induction entries as [|e rest IH] using rev_ind; simpl.
  - split; [constructor | reflexivity].
  - destruct IH as [Hnd Hg]. rewrite fold_left_app. simpl. split.
    + now apply group_append_NoDup.
    + intros k. rewrite group_of_append, Hg, List.filter_app. simpl.
      change (has_key k e) with (bool_decide (entity_key e = k)).
      destruct (bool_decide (entity_key e = k)); [reflexivity|].
      now rewrite app_nil_r.
Qed.

Lemma entry_time_desc_total (a b : Visit) :
  (v_entry_time b <=? v_entry_time a) = true \/ (v_entry_time a <=? v_entry_time b) = true.
Proof. rewrite !Z.leb_le. lia. Qed.

Lemma entry_time_desc_trans (a b c : Visit) :
  (v_entry_time b <=? v_entry_time a) = true -> (v_entry_time c <=? v_entry_time b) = true ->
  (v_entry_time c <=? v_entry_time a) = true.
Proof. rewrite !Z.leb_le. lia. Qed.

(** The visits of one entity before the cap: those paired from its entries,
    most recent entry first. *)
Lemma paired_visits_of_entity (db : DB) (loc date_from date_to : option Z)
    (etf : option EntityType) (t : EntityType) (i : Z) :
  List.filter (visit_of (t, i)) (paired_visits db loc date_from date_to etf) =
  sort_visits
    (pair_entity db []
       ((t, i), List.filter (is_entity t i) (visit_entries db loc date_from date_to etf))).
Proof.
  unfold paired_visits, sort_visits.
  rewrite (filter_stable_sort _ entry_time_desc_total entry_time_desc_trans).
  rewrite fold_pair_entity. simpl.
  destruct (entity_entries_spec (visit_entries db loc date_from date_to etf)) as [Hnd Hg].
  rewrite (visits_of_entity _ _ _ Hnd), Hg.
  rewrite (List.filter_ext _ _ (has_key_is_entity t i)). reflexivity.
Qed.

Lemma slice_to_all {A : Type} (l : list A) (limit : Z) :
  Z.of_nat (length l) <= limit -> slice_to l limit = l.
Proof.
  intros H. unfold slice_to.
  destruct (Z.leb_spec 0 limit); [|lia]. apply firstn_all2. lia.
Qed.

(** C4, as stated, fails: the filtered log of employee 7 is the clean
    sequence IN, OUT, IN, and with a cap of one visit the result holds a
    single visit of the employee, the open one. *)
Lemma cap_cuts_clean_sequence :
  map (fun e => (direction e, timestamp e))
      (List.filter (is_entity EMPLOYEE 7) (visit_entries Examples.week None None None None))
    = [(IN, 464400000000); (OUT, 493200000000); (IN, 547200000000)] /\
  map (fun v => (v_entry_time v, v_exit_time v))
      (List.filter (visit_of (EMPLOYEE, 7))
                   (get_visit_history Examples.week None None None None 1))
    = [(547200000000, None)].
Proof. split; vm_compute; reflexivity. Qed.

(** C4, amended: when the filtered log of an entity is the sequence IN at
    [t1], OUT at [t2], IN at [t3] with [t1 < t2 < t3], and the cap is not
    below the number of visits found, the result holds exactly two visits of
    the entity: the open one entered at [t3] and, after it, the closed one
    entered at [t1] and left at [t2]. *)
Theorem clean_sequence_gives_two_visits (db : DB) (loc date_from date_to : option Z)
    (etf : option EntityType) (limit : Z) (t : EntityType) (i : Z)
    (e1 e2 e3 : LogEntry) :
  List.filter (is_entity t i) (visit_entries db loc date_from date_to etf) = [e1; e2; e3] ->
  direction e1 = IN -> direction e2 = OUT -> direction e3 = IN ->
  timestamp e1 < timestamp e2 < timestamp e3 ->
  Z.of_nat (length (paired_visits db loc date_from date_to etf)) <= limit ->
  let visits := List.filter (visit_of (t, i))
                            (get_visit_history db loc date_from date_to etf limit) in
  visits = [open_visit db t i e3; closed_visit db t i e1 e2] /\
  map (fun v => (v_entry_time v, v_exit_time v)) visits =
    [(timestamp e3, None); (timestamp e1, Some (timestamp e2))].
Proof.
  intros Hseq H1 H2 H3 Ht Hcap visits.
  assert (Hv : visits = [open_visit db t i e3; closed_visit db t i e1 e2]).
  { unfold visits, get_visit_history. rewrite slice_to_all by exact Hcap.
    rewrite paired_visits_of_entity, Hseq.
    unfold pair_entity, pair_loop, pair_step. simpl. rewrite H1, H2, H3. simpl.
    unfold sort_visits. simpl.
    destruct (Z.leb_spec (timestamp e3) (timestamp e1)); [lia|reflexivity]. }
  split; [exact Hv|]. rewrite Hv. reflexivity.
Qed.

Lemma clean_sequence_gives_two_visits_witness :
  map (fun v => (v_entry_time v, v_exit_time v))
      (List.filter (visit_of (EMPLOYEE, 7))
                   (get_visit_history Examples.week None None None None 500))
    = [(547200000000, None); (464400000000, Some 493200000000)].
Proof.
  refine (proj2 (clean_sequence_gives_two_visits Examples.week None None None None 500
                   EMPLOYEE 7
                   (mkLogEntry 1 EMPLOYEE 7 IN 464400000000 (Some 100))
                   (mkLogEntry 1 EMPLOYEE 7 OUT 493200000000 (Some 100))
                   (mkLogEntry 2 EMPLOYEE 7 IN 547200000000 (Some 101)) _ _ _ _ _ _));
    try reflexivity.
  - simpl. lia.
  - vm_compute. discriminate.
Defined.

(** ** The visit aggregator: malformed sequences *)

(** C10: an OUT met while the slot is empty changes neither the slot nor the
    visits, whatever was scanned before it (nothing, when it is the first
    event in range), and the visits of the entity, in the loop and in the
    history, are those of the sequence without it. *)
Theorem orphan_out_skipped (db : DB) (etype : EntityType) (eid : Z)
    (pre post : list LogEntry) (o : LogEntry) :
  direction o = OUT ->
  fst (pair_loop db etype eid (None, []) pre) = None ->
  (forall visits, pair_loop db etype eid (None, visits) (pre ++ [o]) =
                  pair_loop db etype eid (None, visits) pre) /\
  (forall visits, pair_entity db visits ((etype, eid), pre ++ o :: post) =
                  pair_entity db visits ((etype, eid), pre ++ post)) /\
  (forall loc date_from date_to etf,
     List.filter (is_entity etype eid) (visit_entries db loc date_from date_to etf)
       = pre ++ o :: post ->
     List.filter (visit_of (etype, eid)) (paired_visits db loc date_from date_to etf)
       = sort_visits (pair_entity db [] ((etype, eid), pre ++ post))).
Proof.
  intros Ho Hslot.
  assert (Hstep : forall visits,
             pair_step db etype eid (pair_loop db etype eid (None, visits) pre) o
             = pair_loop db etype eid (None, visits) pre).
  { intros visits. rewrite pair_loop_acc, Hslot. unfold pair_step. now rewrite Ho. }
  assert (Hent : forall visits,
             pair_entity db visits ((etype, eid), pre ++ o :: post) =
             pair_entity db visits ((etype, eid), pre ++ post)).
  { intros visits. unfold pair_entity. rewrite !pair_loop_app. simpl. now rewrite Hstep. }
  repeat split.
  - intros visits. rewrite pair_loop_app. simpl. apply Hstep.
  - exact Hent.
  - intros loc date_from date_to etf Hseq.
    now rewrite paired_visits_of_entity, Hseq, Hent.
Qed.

Lemma orphan_out_skipped_witness :
  pair_entity Examples.week []
    ((EMPLOYEE, 7), [mkLogEntry 1 EMPLOYEE 7 OUT 30 None; mkLogEntry 1 EMPLOYEE 7 IN 40 None]) =
  pair_entity Examples.week [] ((EMPLOYEE, 7), [mkLogEntry 1 EMPLOYEE 7 IN 40 None]).
Proof.
  apply (orphan_out_skipped Examples.week EMPLOYEE 7 []
           [mkLogEntry 1 EMPLOYEE 7 IN 40 None]); reflexivity.
Defined.

(** ** The scenarios of the specification, run on the embedding *)

(** Employee 7 at location 1: IN at 09:00 is accepted, IN at 09:05 is
    rejected and logs nothing, OUT at 17:00 is accepted; the history holds
    the one visit from 09:00 to 17:00 and the employee is absent. *)
Example employee_day :
  snd (mark_employee_entry Examples.fresh 7 IN 1 100 Examples.nine) = (true, None) /\
  mark_employee_entry Examples.after_in 7 IN 1 100 Examples.five_past_nine =
    (Examples.after_in, (false, Some (msg_employee_already_in "Jane Doe"))) /\
  snd (mark_employee_entry Examples.after_in 7 OUT 1 100 Examples.seventeen) = (true, None) /\
  map (fun v => (v_entity_id v, v_entry_time v, v_exit_time v))
      (get_visit_history Examples.after_out None None None None 500)
    = [(7, Examples.nine, Some Examples.seventeen)] /\
  is_entity_present Examples.after_out EMPLOYEE 7 = false.
Proof. repeat split; vm_compute; reflexivity. Qed.

(** Vehicle 3, owned by employee 7, both absent: the vehicle's IN at
    location 2 logs the vehicle's row and the mirrored row of the employee,
    who is present afterwards; a second IN of the vehicle is rejected and
    mirrors nothing. *)
Example vehicle_with_owner :
  log Examples.after_car =
    [mkLogEntry 2 VEHICLE 3 IN Examples.nine (Some 100);
     mkLogEntry 2 EMPLOYEE 7 IN (Examples.nine + 1) (Some 100)] /\
  is_entity_present Examples.after_car EMPLOYEE 7 = true /\
  mark_vehicle_entry Examples.after_car 3 IN 2 100
      Examples.five_past_nine (Examples.five_past_nine + 1) =
    (Examples.after_car, (false, Some (msg_vehicle_already_in "UN AB 123"))).
Proof. repeat split; vm_compute; reflexivity. Qed.

(** The linker on two active employees of the same name, who come in
    primary-key order: the vehicle's IN mirrors employee 1 and leaves
    employee 2 alone. And on an owner field with no-break spaces around the
    name: they are trimmed like any white space, and employee 7 is found. *)
Example linker_lookup :
  log (fst (mark_vehicle_entry Examples.namesakes 3 IN 2 100 20 21)) =
    [mkLogEntry 2 VEHICLE 3 IN 20 (Some 100); mkLogEntry 2 EMPLOYEE 1 IN 21 (Some 100)] /\
  log (fst (mark_vehicle_entry Examples.pasted 3 IN 2 100 20 21)) =
    [mkLogEntry 2 VEHICLE 3 IN 20 (Some 100); mkLogEntry 2 EMPLOYEE 7 IN 21 (Some 100)].
Proof. split; vm_compute; reflexivity. Qed.

(** A row that names a location without a row is refused by the storage
    engine: the service returns the failure with the engine's message and
    the log is as it was. *)
Example unknown_location :
  mark_employee_entry Examples.fresh 7 IN 99 100 Examples.nine =
    (Examples.fresh, (false, Some msg_foreign_key)).
Proof. vm_compute. reflexivity. Qed.

(** * Further properties of the service *)

(** ** What recording an event does to the tables *)

(** X1: recording never rewrites anything. The [User], [Employee],
    [Vehicle] and [Location] tables are left as they were and the log only
    grows at its end: by nothing when the call fails, by one row when an
    employee event succeeds, by one or two rows when a vehicle event
    succeeds. *)
Theorem recording_is_append_only (db : DB) (i : Z) (d : Direction)
    (loc by_user now now2 : Z) :
  let re := mark_employee_entry db i d loc by_user now in
  let rv := mark_vehicle_entry db i d loc by_user now now2 in
  (users (fst re) = users db /\
   employees (fst re) = employees db /\ vehicles (fst re) = vehicles db /\
   locations (fst re) = locations db /\
   exists rows, log (fst re) = log db ++ rows /\
                length rows = (if fst (snd re) then 1 else 0)%nat) /\
  (users (fst rv) = users db /\
   employees (fst rv) = employees db /\ vehicles (fst rv) = vehicles db /\
   locations (fst rv) = locations db /\
   exists rows, log (fst rv) = log db ++ rows /\
                if fst (snd rv) then (1 <= length rows <= 2)%nat else rows = []).
Proof.
  intros re rv. split.
  - destruct (mark_employee_entry_cases db i d loc by_user now)
      as [[Hf Hdb]|(Hs & Hdb & _)]; fold re in Hf, Hdb || fold re in Hs, Hdb.
    + rewrite Hf, Hdb. repeat split. exists []. now rewrite app_nil_r.
    + rewrite Hs, Hdb. repeat split. eexists. split; reflexivity.
  - destruct (mark_vehicle_entry_cases db i d loc by_user now now2)
      as [[Hf Hdb]|(Hs & _ & v & _ & Hdb)]; fold rv in Hf, Hdb || fold rv in Hs, Hdb.
    + rewrite Hf, Hdb. repeat split. exists []. now rewrite app_nil_r.
    + rewrite Hs. cbv zeta in Hdb.
      destruct (owner_employee db v) as [[j e]|];
        [destruct (should_mark d _)|]; rewrite Hdb; repeat split; simpl.
      * eexists. rewrite <- app_assoc. split; [reflexivity|]. simpl. lia.
      * eexists. split; [reflexivity|]. simpl. lia.
      * eexists. split; [reflexivity|]. simpl. lia.
Qed.

(** X2: an event is accepted exactly when the entity is registered and
    active, the event changes its presence (an IN for an entity that is not
    present, an OUT for one that is), and the location and the recording
    user have their rows, without which the storage engine refuses the new
    row and the service returns the failure. *)
Theorem accepted_iff_active_and_flips (db : DB) (i : Z) (d : Direction)
    (loc by_user now now2 : Z) :
  (fst (snd (mark_employee_entry db i d loc by_user now)) = true <->
   is_Some (active_employee db i) /\
   is_entity_present db EMPLOYEE i = bool_decide (d = OUT) /\
   is_Some (locations db !! loc) /\ is_Some (users db !! by_user)) /\
  (fst (snd (mark_vehicle_entry db i d loc by_user now now2)) = true <->
   is_Some (active_vehicle db i) /\
   is_entity_present db VEHICLE i = bool_decide (d = OUT) /\
   is_Some (locations db !! loc) /\ is_Some (users db !! by_user)).
Proof.
  destruct (accepted_foreign_keys db i d loc by_user now now2) as [Hfe Hfv].
  split; split.
  - intros Hok. specialize (Hfe Hok). apply foreign_keys_hold_true in Hfe.
    destruct (mark_employee_entry_cases db i d loc by_user now)
      as [[Hf _]|(_ & _ & Ha & Hp)]; [congruence | tauto].
  - intros ([e He] & Hp & Hfk). apply foreign_keys_hold_true in Hfk.
    unfold mark_employee_entry, is_entity_present, create in *.
    rewrite He, Hfk. cbv zeta. rewrite Hp. now destruct d.
  - intros Hok. specialize (Hfv Hok). apply foreign_keys_hold_true in Hfv.
    destruct (mark_vehicle_entry_cases db i d loc by_user now now2)
      as [[Hf _]|(_ & Hp & v & Hv & _)]; [congruence | ].
    rewrite Hv. split; [eauto|tauto].
  - intros ([v Hv] & Hp & Hfk). apply foreign_keys_hold_true in Hfk.
    unfold mark_vehicle_entry, is_entity_present in *.
    rewrite Hv. cbv zeta. rewrite Hp.
    assert (E1 : bool_decide (d = IN) && bool_decide (d = OUT) = false) by now destruct d.
    assert (E2 : bool_decide (d = OUT) && negb (bool_decide (d = OUT)) = false) by now destruct d.
    rewrite E1, E2.
    destruct (create_cases db loc VEHICLE i d by_user now) as [[_ ->]|[Hno _]];
      [|congruence].
    cbv beta iota.
    destruct (owner_employee _ v) as [[j e]|]; [|reflexivity].
    rewrite (create_again db loc by_user VEHICLE EMPLOYEE i j d d now now2 Hfk).
    now destruct (should_mark d _).
Qed.

(** ** The state machine over time *)

Lemma entity_log_insert_row (db : DB) (t t' : EntityType) (i i' : Z) (d : Direction)
    (loc by_user now : Z) :
  entity_log (insert_row db loc t' i' d by_user now) t i =
  entity_log db t i ++
  (if bool_decide ((t', i') = (t, i)) then [mkLogEntry loc t' i' d now (Some by_user)] else []).
Proof.
  unfold entity_log, insert_row. simpl. rewrite List.filter_app. simpl.
  rewrite <- has_key_is_entity. unfold has_key, entity_key. simpl.
  now destruct (bool_decide ((t', i') = (t, i))).
Qed.

Lemma chronological_snoc (l : list LogEntry) (e : LogEntry) :
  chronological (l ++ [e]) <->
  chronological l /\ forall x, In x l -> timestamp x < timestamp e.
Proof.
  unfold chronological. induction l as [|y ys IH]; simpl.
  - split; [intros _; split; [constructor | tauto] | intros _; repeat constructor].
  - split.
    + intros H. inversion H as [|? ? Hs Hall]; subst. apply IH in Hs as [Hs Hlt].
      rewrite List.Forall_forall in Hall. split.
      * constructor; [exact Hs|]. apply List.Forall_forall.
        intros x Hx. apply Hall, in_or_app. now left.
      * intros x [<-|Hx]; [|now apply Hlt].
        apply Hall, in_or_app. right. now left.
    + intros [H Hlt]. inversion H as [|? ? Hs Hall]; subst.
      constructor; [apply IH; split; auto|].
      rewrite List.Forall_forall in *. intros x Hx.
      apply in_app_or in Hx as [Hx|[<-|[]]]; auto.
Qed.

(** The direction the next event of an entity must have. *)
Lemma alternates_snoc (d : Direction) (l : list LogEntry) (e : LogEntry) :
  alternates d (l ++ [e]) <->
  alternates d l /\
  direction e = match last l with Some x => flip (direction x) | None => d end.
Proof.
  revert d. induction l as [|y ys IH]; intros d.
  - simpl. split; intros [? ?]; auto.
  - change (alternates d ((y :: ys) ++ [e]))
      with (direction y = d /\ alternates (flip d) (ys ++ [e])).
    rewrite IH. rewrite last_cons. simpl.
    destruct (last ys) as [x|]; [split; intros H; destruct H as [Ha Hb]; try destruct Ha; try destruct Hb; auto|].
    split; [intros (-> & ? & ->) | intros ((-> & ?) & ->)]; auto.
Qed.

(** In a chronological log the most recent event is the last one logged. *)
Lemma first_desc_chronological (l : list LogEntry) :
  chronological l -> first (order_by_timestamp_desc l) = last l.
Proof.
  destruct l as [|y ys _] using rev_ind; [reflexivity|].
  intros H. apply chronological_snoc in H as [_ Hlt].
  now rewrite first_desc_newest, last_snoc.
Qed.

Lemma get_last_direction_chronological (db : DB) (t : EntityType) (i : Z) :
  chronological (entity_log db t i) ->
  get_last_direction db t i = option_map direction (last (entity_log db t i)).
Proof.
  intros H. unfold get_last_direction. fold (entity_log db t i).
  rewrite (first_desc_chronological _ H). now destruct (last _).
Qed.

(** Appending to a well-formed log a row that is stamped after all the
    others and that flips the presence of its entity keeps it well-formed. *)
Lemma well_formed_insert_row (db : DB) (t : EntityType) (i : Z) (d : Direction)
    (loc by_user now : Z) :
  well_formed db ->
  (forall e, In e (entity_log db t i) -> timestamp e < now) ->
  is_entity_present db t i = bool_decide (d = OUT) ->
  well_formed (insert_row db loc t i d by_user now).
Proof.
  intros Hwf Hclock Hflip t' i'. rewrite entity_log_insert_row.
  destruct (Hwf t' i') as [Hc Ha].
  destruct (decide ((t, i) = (t', i'))) as [[= <- <-]|Hne].
  - rewrite bool_decide_eq_true_2 by reflexivity. split.
    + apply chronological_snoc. split; [exact Hc|].
      intros x Hx. simpl. auto.
    + apply alternates_snoc. split; [exact Ha|]. simpl.
      unfold is_entity_present in Hflip.
      rewrite (get_last_direction_chronological _ _ _ Hc) in Hflip.
      destruct (last (entity_log db t i)) as [x|]; simpl in Hflip.
      * destruct (direction x), d; simpl in *; congruence.
      * destruct d; simpl in *; congruence.
  - rewrite bool_decide_eq_false_2 by exact Hne. now rewrite app_nil_r.
Qed.

(** X3: the validator keeps the log well-formed. If, for every entity, the
    events logged so far are in chronological order and alternate IN, OUT,
    IN, ..., and the clock is past all of them, then the same holds after an
    employee event and after a vehicle event, accepted or not, the mirrored
    row of the owner included. *)
Theorem recording_keeps_log_well_formed (db : DB) (i : Z) (d : Direction)
    (loc by_user now now2 : Z) :
  well_formed db ->
  (forall e, In e (log db) -> timestamp e < now) ->
  now <= now2 ->
  well_formed (fst (mark_employee_entry db i d loc by_user now)) /\
  well_formed (fst (mark_vehicle_entry db i d loc by_user now now2)).
Proof.
  intros Hwf Hclock Hnow. split.
  - destruct (mark_employee_entry_cases db i d loc by_user now)
      as [[_ ->]|(_ & -> & _ & Hp)]; [exact Hwf|].
    apply well_formed_insert_row; auto.
    intros x Hx. apply filter_In in Hx as [Hx _]. auto.
  - destruct (mark_vehicle_entry_cases db i d loc by_user now now2)
      as [[_ ->]|(_ & Hp & v & _ & Hdb)]; [exact Hwf|].
    cbv zeta in Hdb.
    assert (Hwf1 : well_formed (insert_row db loc VEHICLE i d by_user now)).
    { apply well_formed_insert_row; auto.
      intros x Hx. apply filter_In in Hx as [Hx _]. auto. }
    destruct (owner_employee db v) as [[j e]|]; [|now rewrite Hdb].
    destruct (should_mark d (get_last_direction db EMPLOYEE j)) eqn:Hm;
      rewrite Hdb; [|exact Hwf1].
    apply well_formed_insert_row; [exact Hwf1| |].
    + intros x Hx. rewrite entity_log_insert_row in Hx.
      rewrite bool_decide_eq_false_2, app_nil_r in Hx by congruence.
      apply filter_In in Hx as [Hx _]. specialize (Hclock x Hx). lia.
    + unfold is_entity_present.
      rewrite get_last_direction_insert_row_other by congruence.
      unfold should_mark in Hm.
      destruct d, (bool_decide (get_last_direction db EMPLOYEE j = Some IN));
        simpl in *; congruence.
Qed.

Lemma well_formed_fresh : well_formed Examples.fresh.
Proof. intros t i. split; constructor. Qed.

Lemma recording_keeps_log_well_formed_witness :
  well_formed (fst (mark_employee_entry Examples.fresh 7 IN 1 100 Examples.nine)) /\
  well_formed (fst (mark_vehicle_entry Examples.fresh 3 IN 2 100
                      Examples.nine (Examples.nine + 1))).
Proof.
  split.
  - apply (recording_keeps_log_well_formed Examples.fresh 7 IN 1 100
             Examples.nine (Examples.nine + 1));
      [exact well_formed_fresh | intros e [] | lia].
  - apply (recording_keeps_log_well_formed Examples.fresh 3 IN 2 100
             Examples.nine (Examples.nine + 1));
      [exact well_formed_fresh | intros e [] | lia].
Defined.

(** ** Events in a row *)

Lemma presence_after_insert_row (db : DB) (t : EntityType) (i : Z) (d : Direction)
    (loc by_user now : Z) :
  (forall e, In e (entity_log db t i) -> timestamp e < now) ->
  is_entity_present (insert_row db loc t i d by_user now) t i = bool_decide (d = IN).
Proof.
  intros Hclock. unfold is_entity_present.
  rewrite get_last_direction_insert_row_same.
  - now destruct d.
  - intros e He Ht Hi. apply Hclock, filter_In. split; [exact He|].
    apply is_entity_true. now split.
Qed.




(** ** The linker and the other entities *)

(** X5: after an accepted vehicle event the employee found as the owner is
    where the vehicle is: present after the vehicle's IN and absent after its
    OUT, whether a mirrored row had to be written or not (the clock of the
    mirrored row being past the events already logged for the employee). *)
Theorem owner_follows_vehicle (db : DB) (vid : Z) (d : Direction)
    (loc by_user now now2 : Z) (v : Vehicle) (j : Z) (e : Employee) :
  vehicles db !! vid = Some v ->
  owner_employee db v = Some (j, e) ->
  fst (snd (mark_vehicle_entry db vid d loc by_user now now2)) = true ->
  (forall x, In x (entity_log db EMPLOYEE j) -> timestamp x < now2) ->
  is_entity_present (fst (mark_vehicle_entry db vid d loc by_user now now2)) EMPLOYEE j
  = bool_decide (d = IN).
Proof.
  intros Hv Ho Hok Hclock.
  destruct (mark_vehicle_entry_cases db vid d loc by_user now now2)
    as [[Hf _]|(_ & _ & v' & Hv' & Hdb)]; [congruence|].
  unfold active_vehicle in Hv'. rewrite Hv in Hv'.
  destruct (veh_activ v); [|discriminate]. injection Hv' as <-.
  cbv zeta in Hdb. rewrite Ho in Hdb.
  destruct (should_mark d (get_last_direction db EMPLOYEE j)) eqn:Hm; rewrite Hdb.
  - apply presence_after_insert_row. intros x Hx.
    rewrite entity_log_insert_row in Hx.
    rewrite bool_decide_eq_false_2, app_nil_r in Hx by congruence. auto.
  - unfold is_entity_present.
    rewrite get_last_direction_insert_row_other by congruence.
    unfold should_mark in Hm.
    destruct d, (bool_decide (get_last_direction db EMPLOYEE j = Some IN));
      simpl in *; congruence.
Qed.

Lemma owner_follows_vehicle_witness :
  is_entity_present
    (fst (mark_vehicle_entry Examples.fresh 3 IN 2 100 Examples.nine (Examples.nine + 1)))
    EMPLOYEE 7 = true.
Proof.
  apply (owner_follows_vehicle Examples.fresh 3 IN 2 100 Examples.nine (Examples.nine + 1)
           Examples.car 7 Examples.jane); try reflexivity.
  intros x [].
Defined.

(** X6: recording an event leaves every other entity alone. The most recent
    direction of an entity other than the employee marked, or other than the
    vehicle marked and the employee found as its owner, is what it was. *)
Theorem recording_leaves_others_alone (db : DB) (i : Z) (d : Direction)
    (loc by_user now now2 : Z) (t' : EntityType) (i' : Z) :
  ((t', i') <> (EMPLOYEE, i) ->
   get_last_direction (fst (mark_employee_entry db i d loc by_user now)) t' i'
   = get_last_direction db t' i') /\
  ((t', i') <> (VEHICLE, i) ->
   (forall v j e, vehicles db !! i = Some v -> owner_employee db v = Some (j, e) ->
                  (t', i') <> (EMPLOYEE, j)) ->
   get_last_direction (fst (mark_vehicle_entry db i d loc by_user now now2)) t' i'
   = get_last_direction db t' i').
Proof.
  split.
  - intros Hne.
    destruct (mark_employee_entry_cases db i d loc by_user now)
      as [[_ ->]|(_ & -> & _)]; [reflexivity|].
    apply get_last_direction_insert_row_other. congruence.
  - intros Hne Hown.
    destruct (mark_vehicle_entry_cases db i d loc by_user now now2)
      as [[_ ->]|(_ & _ & v & Hv & Hdb)]; [reflexivity|].
    cbv zeta in Hdb. unfold active_vehicle in Hv.
    destruct (vehicles db !! i) as [v'|] eqn:Ev; [|discriminate].
    destruct (veh_activ v'); [|discriminate]. injection Hv as ->.
    destruct (owner_employee db v) as [[j e]|] eqn:Eo;
      [destruct (should_mark d _)|]; rewrite Hdb.
    + rewrite get_last_direction_insert_row_other
        by (specialize (Hown v j e eq_refl Eo); congruence).
      apply get_last_direction_insert_row_other. congruence.
    + apply get_last_direction_insert_row_other. congruence.
    + apply get_last_direction_insert_row_other. congruence.
Qed.

Lemma recording_leaves_others_alone_witness :
  get_last_direction
    (fst (mark_employee_entry Examples.after_car 7 OUT 1 100 Examples.seventeen)) VEHICLE 3
  = get_last_direction Examples.after_car VEHICLE 3.
Proof.
  apply (proj1 (recording_leaves_others_alone Examples.after_car 7 OUT 1 100
                  Examples.seventeen Examples.seventeen VEHICLE 3)).
  discriminate.
Defined.

(** * Further properties of the presence resolver *)

(** X7: what the present-now listing holds. For a location, the listing
    holds an entity exactly when the entity still has its table row and the
    latest of its events logged at that location is an IN; without a
    location, exactly when it has its table row and [is_entity_present]
    says it is present. *)
Theorem listing_holds_latest_in (db : DB) (t : EntityType) (i : Z) :
  (forall l,
     (exists p, In p (get_present_now db (Some l)) /\
                (p_entity_type p, p_entity_id p) = (t, i)) <->
     registered db t i /\
     first (order_by_timestamp_desc
              (List.filter (fun e => location e =? l) (entity_log db t i)))
       ≫= (fun e => Some (direction e)) = Some IN) /\
  ((exists p, In p (get_present_now db None) /\
              (p_entity_type p, p_entity_id p) = (t, i)) <->
   registered db t i /\ is_entity_present db t i = true).
Proof.
  split.
  - intros l. rewrite get_present_now_lists.
    unfold get_last_direction, at_location, entity_log. simpl.
    assert (E : List.filter (is_entity t i) (List.filter (fun e => location e =? l) (log db))
                = List.filter (fun e => location e =? l) (List.filter (is_entity t i) (log db))).
    { induction (log db) as [|x xs IH]; simpl; [reflexivity|].
      destruct (location x =? l) eqn:E1, (is_entity t i x) eqn:E2; simpl;
        rewrite ?E1, ?E2, ?IH; reflexivity. }
    rewrite E. now destruct (first _).
  - rewrite get_present_now_lists. unfold is_entity_present.
    change (get_last_direction (at_location db None) t i)
      with (get_last_direction db t i).
    now rewrite bool_decide_eq_true.
Qed.

Lemma partition_keys_NoDup (rows : list LogEntry) : List.NoDup (partition_keys rows).
Proof.
  induction rows as [|e rest IH]; simpl; constructor.
  - rewrite filter_In, negb_true_iff, bool_decide_eq_false. tauto.
  - now apply List.NoDup_filter.
Qed.

(** At most the first row of a partition carries row number one. *)
Lemma row_number_filter_one (q : LogEntry -> bool) (partition : list LogEntry) :
  map snd (List.filter (fun r => (fst r =? 1)%nat && q (snd r)) (row_number partition)) =
  match first (order_by_timestamp_desc partition) with
  | Some h => if q h then [h] else []
  | None => []
  end.
Proof.
  unfold row_number, order_by_timestamp_desc.
  rewrite <- (stable_sort_length (fun a b => timestamp b <=? timestamp a) partition).
  destruct (stable_sort _ partition) as [|h rest]; [reflexivity|].
  simpl. assert (Hrest : forall n (l : list LogEntry),
            List.filter (fun r => (fst r =? 1)%nat && q (snd r)) (combine (seq 2 n) l) = []).
  { intros n l. apply filter_none. intros [k x] Hx.
    apply in_combine_l, in_seq in Hx. simpl.
    destruct (Nat.eqb_spec k 1); [lia|reflexivity]. }
  rewrite Hrest. now destruct (q h).
Qed.

Lemma flat_map_keys_NoDup {K : Type} (keys : list K) (f : K -> list LogEntry)
    (key : LogEntry -> K) :
  List.NoDup keys ->
  (forall k, f k = [] \/ exists r, f k = [r] /\ key r = k) ->
  List.NoDup (map key (flat_map f keys)).
Proof.
  intros Hnd Hf. induction Hnd as [|k ks Hk Hnd IH]; simpl; [constructor|].
  rewrite map_app. destruct (Hf k) as [->|(r & -> & Hr)]; [exact IH|].
  simpl. constructor; [|exact IH]. rewrite Hr. intros Hin.
  apply in_map_iff in Hin as (x & Hx & Hin).
  apply in_flat_map in Hin as (k' & Hk' & Hin).
  destruct (Hf k') as [E|(r' & E & Hr')]; rewrite E in Hin; [destruct Hin|].
  destruct Hin as [<-|[]]. congruence.
Qed.

Lemma select_present_keys_NoDup (rows : list LogEntry) :
  List.NoDup (map entity_key (select_present (last_events rows))).
Proof.
  unfold select_present, order_by_timestamp_desc.
  eapply Permutation_NoDup.
  { symmetry. apply Permutation_map, stable_sort_perm. }
  unfold last_events.
  assert (E : forall (f : (EntityType * Z) -> list (nat * LogEntry)) p ks,
             map snd (List.filter p (flat_map f ks))
             = flat_map (fun k => map snd (List.filter p (f k))) ks).
  { intros f p ks. induction ks as [|k ks IH]; simpl; [reflexivity|].
    now rewrite List.filter_app, map_app, IH. }
  rewrite E. apply flat_map_keys_NoDup; [apply partition_keys_NoDup|].
  intros k. cbv beta.
  pose proof (row_number_filter_one (fun e => bool_decide (direction e = IN))
                (List.filter (has_key k) rows)) as Hone.
  cbv beta in Hone. rewrite Hone. clear Hone.
  destruct (first _) as [h|] eqn:Eh; [|now left].
  destruct (bool_decide (direction h = IN)); [|now left].
  right. exists h. split; [reflexivity|].
  apply first_desc_latest in Eh as [Hin _].
  apply filter_In in Hin as [_ Hk]. now apply bool_decide_eq_true in Hk.
Qed.

Lemma omap_present_row_keys (es : gmap Z Employee) (vs : gmap Z Vehicle)
    (ls : gmap Z Location) (rows : list LogEntry) :
  sublist (map (fun p => (p_entity_type p, p_entity_id p)) (omap (present_row es vs ls) rows))
          (map entity_key rows).
Proof.
  induction rows as [|r rest IH]; simpl; [constructor|].
  destruct (present_row es vs ls r) as [p|] eqn:E; simpl.
  - apply present_row_entity in E as (-> & -> & _). now constructor.
  - now constructor.
Qed.

(** X8: no entity is listed twice: the rows of the present-now listing carry
    pairwise distinct (kind, id) pairs, for every location filter. *)
Theorem listing_has_no_duplicates (db : DB) (loc : option Z) :
  List.NoDup (map (fun p => (p_entity_type p, p_entity_id p)) (get_present_now db loc)).
Proof.
  unfold get_present_now. apply NoDup_ListNoDup.
  eapply sublist_NoDup; [|apply omap_present_row_keys].
  apply NoDup_ListNoDup. unfold present_rows.
  destruct loc; apply select_present_keys_NoDup.
Qed.

Lemma omap_present_row_sorted (es : gmap Z Employee) (vs : gmap Z Vehicle)
    (ls : gmap Z Location) (rows : list LogEntry) :
  sorted (fun a b => timestamp b <=? timestamp a) rows ->
  sorted (fun a b => p_entry_time b <=? p_entry_time a) (omap (present_row es vs ls) rows).
Proof.
  assert (Ht : forall r p, present_row es vs ls r = Some p -> p_entry_time p = timestamp r).
  { intros r p. unfold present_row.
    destruct (entity_type r); [destruct (es !! _)|destruct (vs !! _)];
      intros [= <-]; reflexivity. }
  unfold sorted. induction 1 as [|r rest Hs IH Hall]; simpl; [constructor|].
  destruct (present_row es vs ls r) as [p|] eqn:E; [|exact IH].
  constructor; [exact IH|]. apply List.Forall_forall. intros p' Hp'.
  apply list_elem_of_In, list_elem_of_omap in Hp' as (r' & Hr' & E').
  rewrite List.Forall_forall in Hall. apply list_elem_of_In, Hall in Hr'.
  now rewrite (Ht _ _ E), (Ht _ _ E').
Qed.

(** X9: the present-now listing is ordered by entry time, most recent
    first: no row is followed by a row with a later entry time. *)
Theorem listing_is_most_recent_first (db : DB) (loc : option Z) :
  StronglySorted (fun a b => p_entry_time b <= p_entry_time a) (get_present_now db loc).
Proof.
  assert (H : sorted (fun a b => p_entry_time b <=? p_entry_time a) (get_present_now db loc)).
  { unfold get_present_now. apply omap_present_row_sorted.
    unfold present_rows, select_present, order_by_timestamp_desc.
    destruct loc;
      apply (stable_sort_sorted _ timestamp_desc_total timestamp_desc_trans). }
  unfold sorted in H. induction H as [|p rest Hs IH Hall]; constructor; [exact IH|].
  eapply List.Forall_impl; [|exact Hall]. intros q Hq. now apply Z.leb_le.
Qed.

(** ** The counts per location *)

Lemma fold_count_lookup (rows : list LogEntry) (counts : gmap Z nat) (k : Z) :
  fold_left (fun counts e => <[location e := S (default O (counts !! location e))]> counts)
            rows counts !! k =
  match length (List.filter (fun e => location e =? k) rows) with
  | O => counts !! k
  | S c => Some (default O (counts !! k) + S c)%nat
  end.
Proof.
  revert counts. induction rows as [|e rest IH]; intros counts; simpl; [reflexivity|].
  rewrite IH. destruct (Z.eqb_spec (location e) k) as [->|Hne]; simpl.
  - rewrite lookup_insert_eq. simpl.
    destruct (length _); f_equal; lia.
  - now rewrite lookup_insert_ne.
Qed.

Lemma filter_has_key_kind (k : EntityType * Z) (t : EntityType) (rows : list LogEntry) :
  List.filter (has_key k) (List.filter (fun e => bool_decide (entity_type e = t)) rows) =
  if bool_decide (fst k = t) then List.filter (has_key k) rows else [].
Proof.
  induction rows as [|e rest IH]; simpl; [now destruct (bool_decide _)|].
  assert (Hkey : has_key k e = true -> entity_type e = fst k).
  { unfold has_key, entity_key. intros H. apply bool_decide_eq_true in H. now subst k. }
  destruct (bool_decide (entity_type e = t)) eqn:A; simpl; rewrite IH;
    destruct (bool_decide (fst k = t)) eqn:C;
    destruct (has_key k e) eqn:B; try reflexivity;
    specialize (Hkey eq_refl);
    apply bool_decide_eq_false in A || apply bool_decide_eq_true in A;
    apply bool_decide_eq_false in C || apply bool_decide_eq_true in C;
    congruence.
Qed.

(** X10: the counts per location. A location has a count exactly when some
    entity (some employee, when only employees are counted) has, as the most
    recent of all its events, an IN logged at that location; a count is
    never zero; and, all entities counted, it is the number of rows of the
    unfiltered present-now query whose event was logged at that location. *)
Theorem counts_follow_latest_events (db : DB) (employees_only : bool) (k : Z) :
  let counts := get_present_counts_by_location db employees_only in
  (is_Some (counts !! k) <->
   exists t i e, (employees_only = true -> t = EMPLOYEE) /\
     first (order_by_timestamp_desc (entity_log db t i)) = Some e /\
     direction e = IN /\ location e = k) /\
  (forall n, counts !! k = Some n -> (0 < n)%nat) /\
  (employees_only = false ->
   default O (counts !! k) =
   length (List.filter (fun e => location e =? k) (present_rows db None))).
Proof.
  intros counts. unfold counts, get_present_counts_by_location.
  rewrite fold_count_lookup, lookup_empty. simpl.
  set (selected := if employees_only
                   then List.filter (fun e => bool_decide (entity_type e = EMPLOYEE)) (log db)
                   else log db).
  set (rows := select_present (last_events selected)).
  assert (Hrows : forall r, In r rows <->
            (employees_only = true -> entity_type r = EMPLOYEE) /\
            first (order_by_timestamp_desc
                     (entity_log db (entity_type r) (entity_id r))) = Some r /\
            direction r = IN).
  { intros r. unfold rows. rewrite select_present_In. unfold selected, entity_log.
    rewrite <- (List.filter_ext _ _ (has_key_is_entity (entity_type r) (entity_id r))).
    fold (entity_key r).
    destruct employees_only.
    - rewrite filter_has_key_kind. simpl.
      destruct (decide (entity_type r = EMPLOYEE)) as [Ht|Ht].
      + rewrite (bool_decide_eq_true_2 _ Ht). tauto.
      + rewrite (bool_decide_eq_false_2 _ Ht). simpl.
        split; [intros [[=] _] | intros [H _]; now specialize (H eq_refl)].
    - split; [intros [? ?]; repeat split; auto; discriminate | tauto]. }
  split; [|split].
  - split.
    + intros Hsome.
      destruct (List.filter (fun e => location e =? k) rows) as [|r rest] eqn:E;
        [destruct Hsome; discriminate|].
      assert (Hr : In r (List.filter (fun e => location e =? k) rows))
        by (rewrite E; now left).
      apply filter_In in Hr as [Hr Hk]. apply Z.eqb_eq in Hk.
      apply Hrows in Hr as (Ht & Hf & Hd).
      exists (entity_type r), (entity_id r), r. auto.
    + intros (t & i & e & Ht & Hf & Hd & Hk).
      assert (He : In e (List.filter (fun e => location e =? k) rows)).
      { apply filter_In. split; [|now apply Z.eqb_eq].
        pose proof (first_desc_latest _ _ Hf) as [Hin _].
        apply filter_In in Hin as [_ Hkey]. apply is_entity_true in Hkey as [<- <-].
        apply Hrows. auto. }
      destruct (List.filter (fun e => location e =? k) rows); [destruct He|].
      simpl. eauto.
  - intros n. destruct (length _); [discriminate|]. intros [= <-]. lia.
  - intros ->. unfold rows, selected, present_rows.
    now destruct (length _).
Qed.

(** * Further properties of the visit aggregator *)

Lemma slice_to_prefix {A : Type} (l : list A) (limit : Z) :
  exists rest, l = slice_to l limit ++ rest.
Proof.
  unfold slice_to. destruct (0 <=? limit); eexists; symmetry; apply firstn_skipn.
Qed.

Lemma slice_to_In {A : Type} (l : list A) (limit : Z) (x : A) :
  In x (slice_to l limit) -> In x l.
Proof.
  destruct (slice_to_prefix l limit) as [rest E]. intros H.
  rewrite E. apply in_or_app. now left.
Qed.

Lemma sorted_prefix {A : Type} (R : A -> A -> Prop) (l1 l2 : list A) :
  StronglySorted R (l1 ++ l2) -> StronglySorted R l1.
Proof.
  induction l1 as [|x xs IH]; simpl; [constructor|].
  intros H. inversion H as [|? ? Hs Hall]; subst. constructor; [auto|].
  rewrite List.Forall_forall in *. intros y Hy. apply Hall, in_or_app. now left.
Qed.

(** X11: the history is the [limit] most recent visits. For a cap that is
    not negative, the result is the front part of the list of all the visits
    ordered by entry time, most recent first; it holds [limit] visits, or
    all of them when there are fewer; and it is itself in that order. *)
Theorem history_is_most_recent_prefix (db : DB) (loc date_from date_to : option Z)
    (etf : option EntityType) (limit : Z) :
  0 <= limit ->
  let all := paired_visits db loc date_from date_to etf in
  let result := get_visit_history db loc date_from date_to etf limit in
  (exists older, all = result ++ older) /\
  length result = Nat.min (Z.to_nat limit) (length all) /\
  StronglySorted (fun a b => v_entry_time b <= v_entry_time a) all /\
  StronglySorted (fun a b => v_entry_time b <= v_entry_time a) result.
Proof.
  intros Hlimit all result.
  assert (Hall : StronglySorted (fun a b => v_entry_time b <= v_entry_time a) all).
  { pose proof (stable_sort_sorted _ entry_time_desc_total entry_time_desc_trans
                  (fold_left (pair_entity db)
                     (entity_entries (visit_entries db loc date_from date_to etf)) []))
      as H.
    unfold all, paired_visits, sort_visits. unfold sorted in H.
    induction H as [|v rest Hs IH Hf]; constructor; [exact IH|].
    eapply List.Forall_impl; [|exact Hf]. intros w Hw. now apply Z.leb_le. }
  destruct (slice_to_prefix all limit) as [older E].
  repeat split.
  - now exists older.
  - unfold result, get_visit_history, slice_to. fold all.
    destruct (Z.leb_spec 0 limit); [|lia]. apply length_firstn.
  - exact Hall.
  - unfold result, get_visit_history. fold all.
    apply (sorted_prefix _ _ older). now rewrite <- E.
Qed.

Lemma history_is_most_recent_prefix_witness :
  length (get_visit_history Examples.week None None None None 2) = 2%nat.
Proof.
  refine (proj1 (proj2 (history_is_most_recent_prefix Examples.week None None None None 2 _))).
  lia.
Defined.

(** ** Where a visit comes from *)

Lemma entry_leb_total (a b : LogEntry) : entry_leb a b = true \/ entry_leb b a = true.
Proof.
  unfold entry_leb.
  destruct (decide (entity_type a = entity_type b)) as [E|E].
  - rewrite !bool_decide_eq_true_2 by congruence.
    destruct (Z.eqb_spec (entity_id a) (entity_id b)) as [Ei|Ei].
    + rewrite Ei, Z.eqb_refl, !Z.leb_le. lia.
    + destruct (Z.eqb_spec (entity_id b) (entity_id a)); [congruence|].
      rewrite !Z.ltb_lt. lia.
  - rewrite !bool_decide_eq_false_2 by congruence.
    destruct (entity_type a), (entity_type b); simpl; auto; congruence.
Qed.

Lemma entry_leb_trans (a b c : LogEntry) :
  entry_leb a b = true -> entry_leb b c = true -> entry_leb a c = true.
Proof.
  unfold entry_leb.
  destruct (entity_type a) eqn:Ea, (entity_type b) eqn:Eb, (entity_type c) eqn:Ec;
    simpl; try discriminate; try reflexivity;
    destruct (Z.eqb_spec (entity_id a) (entity_id b)),
             (Z.eqb_spec (entity_id b) (entity_id c)),
             (Z.eqb_spec (entity_id a) (entity_id c));
    rewrite ?Z.leb_le, ?Z.ltb_lt; lia.
Qed.

(** The entries scanned for one entity are in the order of their timestamps. *)
Lemma entity_entries_by_time (db : DB) (loc date_from date_to : option Z)
    (etf : option EntityType) (t : EntityType) (i : Z) :
  StronglySorted (fun a b => timestamp a <= timestamp b)
    (List.filter (is_entity t i) (visit_entries db loc date_from date_to etf)).
Proof.
  unfold visit_entries.
  pose proof (stable_sort_sorted _ entry_leb_total entry_leb_trans
                (List.filter (visit_filter loc date_from date_to etf) (log db))) as H.
  unfold sorted in H. induction H as [|e rest Hs IH Hall]; simpl; [constructor|].
  destruct (is_entity t i e) eqn:Ee; [|exact IH].
  constructor; [exact IH|]. apply List.Forall_forall. intros x Hx.
  apply filter_In in Hx as [Hx Ex]. rewrite List.Forall_forall in Hall.
  specialize (Hall x Hx). apply is_entity_true in Ee as [Et Ei].
  apply is_entity_true in Ex as [Et' Ei']. unfold entry_leb in Hall.
  rewrite bool_decide_eq_true_2 in Hall by congruence.
  rewrite Ei, Ei', Z.eqb_refl in Hall. now apply Z.leb_le.
Qed.

(** Every visit of the history was paired from the entries of its entity. *)
Lemma history_visit_of_entity (db : DB) (loc date_from date_to : option Z)
    (etf : option EntityType) (limit : Z) (v : Visit) :
  In v (get_visit_history db loc date_from date_to etf limit) ->
  In v (pair_entity db []
          ((v_entity_type v, v_entity_id v),
           List.filter (is_entity (v_entity_type v) (v_entity_id v))
                       (visit_entries db loc date_from date_to etf))).
Proof.
  intros Hv. apply slice_to_In in Hv.
  assert (Hk : In v (List.filter (visit_of (v_entity_type v, v_entity_id v))
                       (paired_visits db loc date_from date_to etf))).
  { apply filter_In. split; [exact Hv|]. now apply bool_decide_eq_true_2. }
  rewrite paired_visits_of_entity in Hk. unfold sort_visits in Hk.
  now apply stable_sort_In in Hk.
Qed.

(** What the loop pairs: an IN of the list (or the entry held at the start)
    with a later OUT of the list. *)
Lemma pair_loop_origin (db : DB) (etype : EntityType) (eid : Z) (elist : list LogEntry) :
  forall slot v,
    In v (snd (pair_loop db etype eid (slot, []) elist)) ->
    exists c e, v = closed_visit db etype eid c e /\
                (slot = Some c \/ (In c elist /\ direction c = IN)) /\
                In e elist /\ direction e = OUT.
Proof.
  induction elist as [|x rest IH]; intros slot v; simpl; [tauto|].
  destruct (direction x) eqn:Ex.
  - intros Hv. apply (IH (Some x)) in Hv as (c & e & -> & Hc & He & Hd).
    exists c, e. repeat split; auto.
    destruct Hc as [[= <-]|[Hc Hdc]]; right; auto.
  - destruct slot as [c0|].
    + fold (pair_loop db etype eid (None, [] ++ [closed_visit db etype eid c0 x]) rest).
      rewrite pair_loop_acc. simpl. intros [<-|Hv].
      * exists c0, x. auto.
      * apply (IH None) in Hv as (c & e & -> & Hc & He & Hd).
        exists c, e. repeat split; auto.
        destruct Hc as [[=]|[Hc Hdc]]. right; auto.
    + intros Hv. apply (IH None) in Hv as (c & e & -> & Hc & He & Hd).
      exists c, e. repeat split; auto.
      destruct Hc as [[=]|[Hc Hdc]]. right; auto.
Qed.

(** The slot at the end of the scan: the last entry, when it is an IN. *)
Lemma pair_loop_final_slot (db : DB) (etype : EntityType) (eid : Z)
    (elist : list LogEntry) (st : PairState) :
  fst (pair_loop db etype eid st elist) =
  match last elist with
  | Some x => if bool_decide (direction x = IN) then Some x else None
  | None => fst st
  end.
Proof.
  destruct elist as [|x rest _] using rev_ind; [reflexivity|].
  rewrite pair_loop_app, last_snoc. simpl.
  destruct (pair_loop db etype eid st rest) as [slot vs]. unfold pair_step.
  destruct (direction x); simpl; [reflexivity|]. now destruct slot.
Qed.

Lemma pair_loop_times (db : DB) (etype : EntityType) (eid : Z) (elist : list LogEntry) :
  StronglySorted (fun a b => timestamp a <= timestamp b) elist ->
  forall slot v x,
    (forall c, slot = Some c -> Forall (fun y => timestamp c <= timestamp y) elist) ->
    In v (snd (pair_loop db etype eid (slot, []) elist)) ->
    v_exit_time v = Some x -> v_entry_time v <= x.
Proof.
  induction 1 as [|e rest Hs IH Hall]; intros slot v x Hslot; simpl; [tauto|].
  assert (Hrest : forall c, slot = Some c ->
                            Forall (fun y => timestamp c <= timestamp y) rest).
  { intros c Hc. specialize (Hslot c Hc). now inversion Hslot. }
  destruct (direction e).
  - apply (IH (Some e)). intros c [= <-]. exact Hall.
  - destruct slot as [c0|].
    + fold (pair_loop db etype eid (None, [] ++ [closed_visit db etype eid c0 e]) rest).
      rewrite pair_loop_acc. simpl. intros [<-|Hv].
      * simpl. intros [= <-]. specialize (Hslot c0 eq_refl). now inversion Hslot.
      * apply (IH None); [discriminate | exact Hv].
    + apply (IH None). discriminate.
Qed.

Lemma pair_entity_origin (db : DB) (etype : EntityType) (eid : Z)
    (elist : list LogEntry) (v : Visit) :
  In v (pair_entity db [] ((etype, eid), elist)) ->
  (exists c e, v = closed_visit db etype eid c e /\ In c elist /\ direction c = IN /\
               In e elist /\ direction e = OUT) \/
  (exists c, v = open_visit db etype eid c /\ last elist = Some c /\ direction c = IN).
Proof.
  unfold pair_entity.
  pose proof (pair_loop_final_slot db etype eid elist (None, [])) as Hslot.
  pose proof (pair_loop_origin db etype eid elist None) as Hvs.
  destruct (pair_loop db etype eid (None, []) elist) as [slot vs]. simpl in *.
  assert (Hclosed : In v vs ->
            exists c e, v = closed_visit db etype eid c e /\ In c elist /\
                        direction c = IN /\ In e elist /\ direction e = OUT).
  { intros Hv. apply Hvs in Hv as (c & e & -> & [[=]|[Hc Hd]] & He & Hde). eauto 8. }
  destruct slot as [c|]; [|intros Hv; left; auto].
  intros Hv. apply in_app_or in Hv as [Hv|[<-|[]]]; [left; auto|]. right.
  exists c. split; [reflexivity|].
  destruct (last elist) as [x|]; [|discriminate].
  destruct (decide (direction x = IN)) as [Hx|Hx].
  - rewrite (bool_decide_eq_true_2 _ Hx) in Hslot. now injection Hslot as <-.
  - rewrite (bool_decide_eq_false_2 _ Hx) in Hslot. discriminate.
Qed.

Lemma last_In {A : Type} (l : list A) (x : A) : last l = Some x -> In x l.
Proof. intros H. now apply list_elem_of_In, last_Some_elem_of. Qed.

(** X12: every visit of the history is made of events of the log. Its entry
    is an IN of its entity that passes the filters, from which it takes the
    entry time and location; a closed visit has, as its exit, an OUT of the
    same entity that passes the filters and is not stamped before the entry;
    an open visit has neither exit time nor exit location. *)
Theorem visit_is_made_of_logged_events (db : DB) (loc date_from date_to : option Z)
    (etf : option EntityType) (limit : Z) (v : Visit) :
  In v (get_visit_history db loc date_from date_to etf limit) ->
  exists c,
    In c (log db) /\ visit_filter loc date_from date_to etf c = true /\
    direction c = IN /\ entity_key c = (v_entity_type v, v_entity_id v) /\
    v_entry_time v = timestamp c /\ v_entry_location v = location c /\
    match v_exit_time v with
    | None => v_exit_location v = None
    | Some x =>
        exists e,
          In e (log db) /\ visit_filter loc date_from date_to etf e = true /\
          direction e = OUT /\ entity_key e = (v_entity_type v, v_entity_id v) /\
          x = timestamp e /\ v_exit_location v = Some (location e) /\
          timestamp c <= timestamp e
    end.
Proof.
  intros Hv. apply history_visit_of_entity in Hv.
  set (t := v_entity_type v) in *. set (i := v_entity_id v) in *.
  set (E := List.filter (is_entity t i) (visit_entries db loc date_from date_to etf)) in *.
  assert (HE : forall x, In x E ->
             In x (log db) /\ visit_filter loc date_from date_to etf x = true /\
             entity_key x = (t, i)).
  { intros x Hx. apply filter_In in Hx as [Hx Hk].
    apply visit_entries_In in Hx as [? ?]. apply is_entity_true in Hk as [<- <-]. auto. }
  pose proof (entity_entries_by_time db loc date_from date_to etf t i) as Hsorted.
  fold E in Hsorted.
  pose proof (pair_loop_times db t i E Hsorted None v) as Htimes.
  destruct (pair_entity_origin _ _ _ _ _ Hv) as [(c & e & Hvc & Hc & Hdc & He & Hde)|(c & Hvc & Hc & Hdc)].
  - destruct (HE c Hc) as (? & ? & ?). destruct (HE e He) as (? & ? & ?).
    assert (Hin : In v (snd (pair_loop db t i (None, []) E))).
    { unfold pair_entity in Hv.
      destruct (pair_loop db t i (None, []) E) as [slot vs] eqn:El. simpl.
      destruct slot as [c'|]; [|exact Hv].
      apply in_app_or in Hv as [Hv|[Hv|[]]]; [exact Hv|].
      rewrite Hvc in Hv. discriminate. }
    specialize (Htimes (timestamp e) ltac:(discriminate) Hin).
    rewrite Hvc in *. simpl in *. exists c. repeat split; auto.
    exists e. repeat split; auto.
  - apply last_In in Hc. destruct (HE c Hc) as (? & ? & ?).
    rewrite Hvc in *. simpl in *. exists c. repeat split; auto.
Qed.

Lemma visit_is_made_of_logged_events_witness :
  exists c, In c (log Examples.week) /\ direction c = IN /\ timestamp c = 547200000000.
Proof.
  destruct (visit_is_made_of_logged_events Examples.week None None None None 500
              (open_visit Examples.week EMPLOYEE 7
                 (mkLogEntry 2 EMPLOYEE 7 IN 547200000000 (Some 101))))
    as (c & Hc & _ & Hd & _ & Ht & _).
  - vm_compute. now left.
  - exists c. repeat split; [exact Hc | exact Hd | now rewrite <- Ht].
Defined.

Lemma filter_length_prefix {A : Type} (p : A -> bool) (l1 l2 : list A) :
  (length (List.filter p l1) <= length (List.filter p (l1 ++ l2)))%nat.
Proof. rewrite List.filter_app, length_app. lia. Qed.

Lemma filter_filter {A : Type} (p q : A -> bool) (l : list A) :
  List.filter (fun x => p x && q x) l = List.filter q (List.filter p l).
Proof.
  induction l as [|x xs IH]; simpl; [reflexivity|].
  destruct (p x); simpl; [destruct (q x)|]; now rewrite IH.
Qed.

Lemma filter_perm_length {A : Type} (p : A -> bool) (l1 l2 : list A) :
  Permutation l1 l2 -> length (List.filter p l1) = length (List.filter p l2).
Proof.
  induction 1; simpl; try congruence.
  - destruct (p x); simpl; congruence.
  - destruct (p x), (p y); reflexivity.
Qed.

(** X13: an entity has at most one open visit in the history, whatever the
    filters and the cap. *)
Theorem at_most_one_open_visit (db : DB) (loc date_from date_to : option Z)
    (etf : option EntityType) (limit : Z) (t : EntityType) (i : Z) :
  (length (List.filter
             (fun v => visit_of (t, i) v && bool_decide (v_exit_time v = None))
             (get_visit_history db loc date_from date_to etf limit)) <= 1)%nat.
Proof.
  unfold get_visit_history.
  destruct (slice_to_prefix (paired_visits db loc date_from date_to etf) limit) as [older E].
  eapply Nat.le_trans; [apply (filter_length_prefix _ _ older)|]. rewrite <- E.
  rewrite filter_filter, paired_visits_of_entity. unfold sort_visits.
  rewrite (filter_perm_length _ _ _ (stable_sort_perm _ _)).
  unfold pair_entity.
  pose proof (pair_loop_origin db t i
                (List.filter (is_entity t i) (visit_entries db loc date_from date_to etf))
                None) as Hvs.
  destruct (pair_loop db t i (None, []) _) as [slot vs]. simpl in Hvs.
  assert (Hnone : List.filter (fun v => bool_decide (v_exit_time v = None)) vs = []).
  { apply filter_none. intros v Hv. apply Hvs in Hv as (c & e & -> & _). reflexivity. }
  destruct slot; [rewrite List.filter_app, Hnone; simpl | rewrite Hnone; simpl]; lia.
Qed.

(** ** The history and the presence of an entity *)

Lemma pair_loop_cons (db : DB) (etype : EntityType) (eid : Z) (slot : option LogEntry)
    (x : LogEntry) (rest : list LogEntry) :
  pair_loop db etype eid (slot, []) (x :: rest) =
  match direction x, slot with
  | IN, _ => pair_loop db etype eid (Some x, []) rest
  | OUT, Some c =>
      (fst (pair_loop db etype eid (None, []) rest),
       closed_visit db etype eid c x :: snd (pair_loop db etype eid (None, []) rest))
  | OUT, None => pair_loop db etype eid (None, []) rest
  end.
Proof.
  change (pair_loop db etype eid (slot, []) (x :: rest))
    with (pair_loop db etype eid (pair_step db etype eid (slot, []) x) rest).
  unfold pair_step. destruct (direction x); [reflexivity|].
  destruct slot; [|reflexivity]. now rewrite pair_loop_acc.
Qed.

Lemma pair_loop_length (db : DB) (etype : EntityType) (eid : Z) (elist : list LogEntry) :
  forall slot,
    (length (snd (pair_loop db etype eid (slot, []) elist)) +
     length (option_list (fst (pair_loop db etype eid (slot, []) elist)))
     <= length elist + length (option_list slot))%nat.
Proof.
  induction elist as [|x rest IH]; intros slot; [simpl; lia|].
  rewrite pair_loop_cons.
  destruct (direction x); [|destruct slot].
  - specialize (IH (Some x)). simpl in *. lia.
  - specialize (IH None). simpl in *. lia.
  - specialize (IH None). simpl in *. lia.
Qed.

Lemma pair_entity_length (db : DB) (group : (EntityType * Z) * list LogEntry) :
  (length (pair_entity db [] group) <= length (snd group))%nat.
Proof.
  destruct group as [[etype eid] elist]. unfold pair_entity. simpl.
  pose proof (pair_loop_length db etype eid elist None) as H.
  destruct (pair_loop db etype eid (None, []) elist) as [slot vs]. simpl in H.
  destruct slot; rewrite ?length_app; simpl in *; lia.
Qed.

Lemma group_append_length (key : EntityType * Z) (entry : LogEntry)
    (groups : list ((EntityType * Z) * list LogEntry)) :
  length (flat_map snd (group_append key entry groups)) = S (length (flat_map snd groups)).
Proof.
  induction groups as [|[k l] rest IH]; simpl; [reflexivity|].
  destruct (bool_decide (k = key)); simpl; rewrite !length_app; [|rewrite IH]; simpl; lia.
Qed.

Lemma entity_entries_length (entries : list LogEntry) :
  length (flat_map snd (entity_entries entries)) = length entries.
Proof.
  unfold entity_entries. induction entries as [|e rest IH] using rev_ind; [reflexivity|].
  rewrite fold_left_app. simpl. rewrite group_append_length, IH, length_app. simpl. lia.
Qed.

(** There are no more visits than events. *)
Lemma paired_visits_length (db : DB) (loc date_from date_to : option Z)
    (etf : option EntityType) :
  (length (paired_visits db loc date_from date_to etf) <= length (log db))%nat.
Proof.
  unfold paired_visits, sort_visits. rewrite stable_sort_length, fold_pair_entity. simpl.
  eapply Nat.le_trans; [|eapply Nat.le_trans].
  - instantiate (1 := length (flat_map snd
                         (entity_entries (visit_entries db loc date_from date_to etf)))).
    induction (entity_entries _) as [|g rest IH]; simpl; [lia|].
    rewrite !length_app. pose proof (pair_entity_length db g). lia.
  - rewrite entity_entries_length. unfold visit_entries. rewrite stable_sort_length.
    reflexivity.
  - apply List.filter_length_le.
Qed.

Lemma history_uncapped (db : DB) (loc date_from date_to : option Z)
    (etf : option EntityType) (limit : Z) :
  Z.of_nat (length (log db)) <= limit ->
  get_visit_history db loc date_from date_to etf limit
  = paired_visits db loc date_from date_to etf.
Proof.
  intros H. apply slice_to_all.
  pose proof (paired_visits_length db loc date_from date_to etf). lia.
Qed.

(** Without filters, the entries scanned for an entity whose events were
    logged in chronological order are its events, in that order. *)
Lemma unfiltered_entries_of_entity (db : DB) (t : EntityType) (i : Z) :
  chronological (entity_log db t i) ->
  List.filter (is_entity t i) (visit_entries db None None None None) = entity_log db t i.
Proof.
  intros Hc. unfold visit_entries.
  rewrite (filter_all (visit_filter None None None None)) by reflexivity.
  rewrite (filter_stable_sort _ entry_leb_total entry_leb_trans).
  fold (entity_log db t i). apply stable_sort_id.
  assert (Hk : forall x, In x (entity_log db t i) -> entity_type x = t /\ entity_id x = i).
  { intros x Hx. apply filter_In in Hx as [_ Hx]. now apply is_entity_true. }
  unfold sorted, chronological in *.
  induction Hc as [|e rest Hs IH Hall]; constructor.
  - apply IH. intros x Hx. apply Hk. now right.
  - rewrite List.Forall_forall in *. intros x Hx. specialize (Hall x Hx).
    destruct (Hk e (or_introl eq_refl)) as [Et Ei].
    destruct (Hk x (or_intror Hx)) as [Et' Ei'].
    unfold entry_leb. rewrite bool_decide_eq_true_2 by congruence.
    rewrite Ei, Ei', Z.eqb_refl. apply Z.leb_le. lia.
Qed.

(** X14: the history and the presence check agree. For an entity whose
    events were logged in chronological order, and with neither filters nor
    a binding cap, the history shows an open visit of the entity exactly
    when [is_entity_present] says that it is present. *)
Theorem open_visit_iff_present (db : DB) (limit : Z) (t : EntityType) (i : Z) :
  chronological (entity_log db t i) ->
  Z.of_nat (length (log db)) <= limit ->
  (is_entity_present db t i = true <->
   exists v, In v (get_visit_history db None None None None limit) /\
             (v_entity_type v, v_entity_id v) = (t, i) /\ v_exit_time v = None).
Proof.
  intros Hc Hlimit. unfold is_entity_present.
  rewrite bool_decide_eq_true, (get_last_direction_chronological _ _ _ Hc).
  split.
  - destruct (last (entity_log db t i)) as [c|] eqn:El; [|discriminate].
    intros [= Hd]. exists (open_visit db t i c). repeat split.
    rewrite history_uncapped by exact Hlimit.
    assert (Hin : In (open_visit db t i c)
                     (List.filter (visit_of (t, i)) (paired_visits db None None None None))).
    { rewrite paired_visits_of_entity, (unfiltered_entries_of_entity _ _ _ Hc).
      unfold sort_visits. apply stable_sort_In. unfold pair_entity.
      pose proof (pair_loop_final_slot db t i (entity_log db t i) (None, [])) as Hs.
      rewrite El, (bool_decide_eq_true_2 _ Hd) in Hs.
      destruct (pair_loop db t i (None, []) (entity_log db t i)) as [slot vs].
      simpl in Hs. subst slot. apply in_or_app. right. now left. }
    now apply filter_In in Hin as [Hin _].
  - intros (v & Hv & [= Ht Hi] & Hopen).
    apply history_visit_of_entity in Hv. rewrite Ht, Hi in Hv.
    rewrite (unfiltered_entries_of_entity _ _ _ Hc) in Hv.
    apply pair_entity_origin in Hv as [(c & e & -> & _)|(c & _ & -> & Hd)].
    + discriminate.
    + simpl. now rewrite Hd.
Qed.

Lemma chronological_week_7 : chronological (entity_log Examples.week EMPLOYEE 7).
Proof.
  vm_compute. repeat constructor.
Qed.

Lemma open_visit_iff_present_witness :
  is_entity_present Examples.week EMPLOYEE 7 = true <->
  exists v, In v (get_visit_history Examples.week None None None None 500) /\
            (v_entity_type v, v_entity_id v) = (EMPLOYEE, 7) /\ v_exit_time v = None.
Proof.
  apply open_visit_iff_present.
  - exact chronological_week_7.
  - simpl. lia.
Defined.

(** On an alternating list every OUT closes a visit and every IN opens one. *)
Lemma pair_loop_alternating (db : DB) (etype : EntityType) (eid : Z)
    (elist : list LogEntry) :
  forall d slot,
    alternates d elist ->
    (slot = None <-> d = IN) ->
    length (snd (pair_loop db etype eid (slot, []) elist))
    = length (List.filter (fun e => bool_decide (direction e = OUT)) elist) /\
    (length (snd (pair_loop db etype eid (slot, []) elist)) +
     length (option_list (fst (pair_loop db etype eid (slot, []) elist))))%nat
    = (length (List.filter (fun e => bool_decide (direction e = IN)) elist) +
       length (option_list slot))%nat.
Proof.
  induction elist as [|x rest IH]; intros d slot Halt Hslot; [simpl; lia|].
  destruct Halt as [Hx Hrest]. rewrite pair_loop_cons. simpl.
  destruct d; rewrite Hx; simpl.
  - assert (slot = None) as -> by now apply Hslot.
    destruct (IH OUT (Some x) Hrest) as [H1 H2]; [split; discriminate|].
    simpl in *. lia.
  - destruct slot as [c|]; [|destruct Hslot as [H _]; now specialize (H eq_refl)].
    destruct (IH IN None Hrest) as [H1 H2]; [tauto|].
    simpl in *. lia.
Qed.

(** X15: on a well-formed log the history loses no event. For an entity
    whose events were logged in chronological order and alternate IN, OUT,
    IN, ..., and with neither filters nor a binding cap, the history holds
    one visit of the entity for each of its IN events, and one closed visit
    for each of its OUT events. *)
Theorem well_formed_log_pairs_every_event (db : DB) (limit : Z) (t : EntityType) (i : Z) :
  chronological (entity_log db t i) ->
  alternates IN (entity_log db t i) ->
  Z.of_nat (length (log db)) <= limit ->
  let visits := List.filter (visit_of (t, i))
                            (get_visit_history db None None None None limit) in
  length visits
  = length (List.filter (fun e => bool_decide (direction e = IN)) (entity_log db t i)) /\
  length (List.filter (fun v => negb (bool_decide (v_exit_time v = None))) visits)
  = length (List.filter (fun e => bool_decide (direction e = OUT)) (entity_log db t i)).
Proof.
  intros Hc Ha Hlimit visits. unfold visits.
  rewrite history_uncapped by exact Hlimit.
  rewrite paired_visits_of_entity, (unfiltered_entries_of_entity _ _ _ Hc).
  unfold sort_visits.
  rewrite (filter_perm_length _ _ _ (stable_sort_perm _ _)), stable_sort_length.
  unfold pair_entity.
  destruct (pair_loop_alternating db t i (entity_log db t i) IN None Ha) as [H1 H2];
    [tauto|].
  pose proof (pair_loop_origin db t i (entity_log db t i) None) as Hvs.
  destruct (pair_loop db t i (None, []) (entity_log db t i)) as [slot vs].
  simpl in *.
  assert (Hclosed : List.filter (fun v => negb (bool_decide (v_exit_time v = None))) vs = vs).
  { apply filter_all. intros v Hv. apply Hvs in Hv as (c & e & -> & _). reflexivity. }
  destruct slot as [c|]; simpl in *.
  - rewrite List.filter_app, Hclosed, !length_app. simpl. lia.
  - rewrite Hclosed. lia.
Qed.

Lemma well_formed_log_pairs_every_event_witness :
  length (List.filter (visit_of (EMPLOYEE, 7))
            (get_visit_history Examples.week None None None None 500)) = 2%nat.
Proof.
  refine (proj1 (well_formed_log_pairs_every_event Examples.week 500 EMPLOYEE 7 _ _ _)).
  - exact chronological_week_7.
  - vm_compute. tauto.
  - simpl. lia.
Defined.

(** * Further properties: durations *)

(** Whole seconds: negative from one second before, zero within a second
    either way. *)
Lemma total_seconds_int_sign (delta : Z) :
  (total_seconds_int delta < 0 <-> delta <= - microseconds_per_second) /\
  (total_seconds_int delta = 0 <->
   - microseconds_per_second < delta < microseconds_per_second) /\
  (0 <= delta -> total_seconds_int delta = delta / microseconds_per_second).
Proof.
  unfold total_seconds_int, microseconds_per_second.
  repeat split; intros; Z.to_euclidean_division_equations; lia.
Qed.

(** X16: [duration_until] prints a dash exactly when a time is missing or
    the end lies a whole second or more before the start; an end less than a
    second away from the start, on either side, prints [0s]. *)
Theorem duration_until_dash (start_time end_time : option Z) :
  (duration_until start_time end_time = "-" <->
   start_time = None \/ end_time = None \/
   exists s e, start_time = Some s /\ end_time = Some e /\
               e + microseconds_per_second <= s) /\
  (forall s e, start_time = Some s -> end_time = Some e ->
               s - microseconds_per_second < e < s + microseconds_per_second ->
               duration_until start_time end_time = "0s").
Proof.
  split.
  - unfold duration_until.
    destruct start_time as [s|], end_time as [e|]; try (split; [auto | reflexivity]).
    cbv zeta. destruct (total_seconds_int_sign (e - s)) as (Hsign & _ & _).
    destruct (Z.ltb_spec (total_seconds_int (e - s)) 0) as [Hneg|Hpos].
    + split; [intros _|reflexivity]. right. right. exists s, e. repeat split. lia.
    + split.
      * intros H. apply (f_equal (@last Z)) in H. exfalso.
        destruct (0 <? total_seconds_int (e - s) / 3600); [|destruct (0 <? _)];
          unfold Str.append in H; rewrite !last_app in H; simpl in H; discriminate.
      * intros [H|[H|(a & b & [= <-] & [= <-] & H)]]; try discriminate. lia.
  - intros s e -> -> H. unfold duration_until. cbv zeta.
    destruct (total_seconds_int_sign (e - s)) as (_ & Hzero & _).
    assert (E : total_seconds_int (e - s) = 0) by (apply Hzero; lia).
    rewrite E. reflexivity.
Qed.

(** A closed visit of the history does not end before it starts. *)
Lemma history_visit_times (db : DB) (loc date_from date_to : option Z)
    (etf : option EntityType) (limit : Z) (v : Visit) (x : Z) :
  In v (get_visit_history db loc date_from date_to etf limit) ->
  v_exit_time v = Some x -> v_entry_time v <= x.
Proof.
  intros Hv Hx. apply history_visit_of_entity in Hv.
  set (t := v_entity_type v) in *. set (i := v_entity_id v) in *.
  set (E := List.filter (is_entity t i) (visit_entries db loc date_from date_to etf)) in *.
  pose proof (entity_entries_by_time db loc date_from date_to etf t i) as Hsorted.
  fold E in Hsorted.
  apply (pair_loop_times db t i E Hsorted None v x); [discriminate| |exact Hx].
  unfold pair_entity in Hv.
  destruct (pair_loop db t i (None, []) E) as [slot vs]. simpl.
  destruct slot as [c|]; [|exact Hv].
  apply in_app_or in Hv as [Hv|[Hv|[]]]; [exact Hv|].
  rewrite <- Hv in Hx. discriminate.
Qed.

(** X17: the two printed durations. A closed visit of the history does not
    end before it starts, so its duration in whole seconds is never
    negative; the export column and the template filter print the same text
    when the visit lasted a minute or more, and for a shorter visit the
    export prints [0m] where the filter prints the seconds. *)
Theorem export_duration_agrees_with_filter (db : DB) (loc date_from date_to : option Z)
    (etf : option EntityType) (limit : Z) (v : Visit) (x : Z) :
  In v (get_visit_history db loc date_from date_to etf limit) ->
  v_exit_time v = Some x ->
  let d := total_seconds_int (x - v_entry_time v) in
  0 <= x - v_entry_time v /\ 0 <= d /\
  (60 <= d -> export_duration v = duration_until (Some (v_entry_time v)) (Some x)) /\
  (d < 60 -> export_duration v = "0m" /\
             duration_until (Some (v_entry_time v)) (Some x) = Str.of_Z d +:+ "s").
Proof.
  intros Hv Hx d.
  pose proof (history_visit_times _ _ _ _ _ _ _ _ Hv Hx) as Hle.
  assert (Hd : 0 <= d).
  { destruct (total_seconds_int_sign (x - v_entry_time v)) as (Hsign & _ & _).
    unfold d, microseconds_per_second in *. lia. }
  unfold export_duration, duration_until. rewrite Hx. cbv zeta. fold d.
  destruct (Z.ltb_spec d 0) as [|_]; [lia|].
  split; [lia|]. split; [exact Hd|]. split; intros Hm.
  - destruct (0 <? d / 3600) eqn:Eh; [reflexivity|].
    apply Z.ltb_ge in Eh.
    assert (Hmin : 0 < d mod 3600 / 60).
    { assert (d / 3600 = 0) by (pose proof (Z.div_pos d 3600); lia).
      assert (d mod 3600 = d) by (rewrite Z.mod_eq by lia; lia).
      assert (1 <= d mod 3600 / 60); [|lia].
      apply Z.div_le_lower_bound; lia. }
    apply Z.ltb_lt in Hmin. now rewrite Hmin.
  - assert (H1 : d / 3600 = 0) by (apply Z.div_small; lia).
    assert (H2 : d mod 3600 = d) by (apply Z.mod_small; lia).
    assert (H3 : d / 60 = 0) by (apply Z.div_small; lia).
    assert (H4 : d mod 60 = d) by (apply Z.mod_small; lia).
    rewrite H1, H2, H3, H4. simpl. split; reflexivity.
Qed.

Lemma export_duration_agrees_with_filter_witness :
  export_duration (closed_visit Examples.week EMPLOYEE 7
                     (mkLogEntry 1 EMPLOYEE 7 IN 464400000000 (Some 100))
                     (mkLogEntry 1 EMPLOYEE 7 OUT 493200000000 (Some 100)))
  = duration_until (Some 464400000000) (Some 493200000000).
Proof.
  refine (proj1 (proj2 (proj2 (export_duration_agrees_with_filter Examples.week
                          None None None None 500 _ 493200000000 _ _))) _).
  - vm_compute. do 2 right. now left.
  - reflexivity.
  - vm_compute. discriminate.
Defined.

(** * Further properties: the forms *)

Lemma rstrip_cons (c : Z) (s : str) :
  Str.rstrip (c :: s) =
  match Str.rstrip s with
  | [] => if Str.is_whitespace c then [] else [c]
  | r => c :: r
  end.
Proof. reflexivity. Qed.

Lemma lstrip_head (s : str) :
  match Str.lstrip s with [] => True | c :: _ => Str.is_whitespace c = false end.
Proof.
  induction s as [|c s IH]; simpl; [exact I|].
  destruct (Str.is_whitespace c) eqn:E; [exact IH|exact E].
Qed.

Lemma rstrip_last (s : str) :
  match last (Str.rstrip s) with None => True | Some c => Str.is_whitespace c = false end.
Proof.
  induction s as [|c s IH]; [exact I|].
  rewrite rstrip_cons. destruct (Str.rstrip s) as [|c' r] eqn:E.
  - destruct (Str.is_whitespace c) eqn:Ec; [exact I|exact Ec].
  - rewrite last_cons. destruct (last (c' :: r)) eqn:El; [exact IH|].
    now apply last_None in El.
Qed.

Lemma rstrip_keeps_head (c : Z) (s : str) :
  Str.is_whitespace c = false -> exists r, Str.rstrip (c :: s) = c :: r.
Proof.
  intros Hc. rewrite rstrip_cons. destruct (Str.rstrip s); [rewrite Hc|]; eauto.
Qed.

Lemma strip_trimmed (s : str) : trimmed (Str.strip s).
Proof.
  unfold trimmed, Str.strip. split; [|apply rstrip_last].
  pose proof (lstrip_head s) as Hh. destruct (Str.lstrip s) as [|c s']; [exact I|].
  destruct (rstrip_keeps_head c s' Hh) as [r ->]. exact Hh.
Qed.

Lemma rstrip_fixed (s : str) :
  match last s with None => True | Some c => Str.is_whitespace c = false end ->
  Str.rstrip s = s.
Proof.
  induction s as [|c s IH]; [reflexivity|].
  rewrite rstrip_cons, last_cons. destruct s as [|c' s'].
  - simpl. now intros ->.
  - destruct (last (c' :: s')) eqn:El; [|now apply last_None in El].
    intros H. now rewrite (IH H).
Qed.

Lemma trimmed_strip (s : str) : trimmed s -> Str.strip s = s.
Proof.
  intros [Hh Hl]. unfold Str.strip.
  assert (E : Str.lstrip s = s) by (destruct s; simpl; [reflexivity|now rewrite Hh]).
  rewrite E. now apply rstrip_fixed.
Qed.

(** Trimming a trimmed string changes nothing. *)
Lemma strip_idem (s : str) : Str.strip (Str.strip s) = Str.strip s.
Proof. apply trimmed_strip, strip_trimmed. Qed.

(** The upper-case form of a character that is not white space is not
    empty and holds no white space. *)
Lemma upper_char_not_whitespace (c : Z) :
  Str.is_whitespace c = false ->
  upper_char c <> [] /\ Forall (fun x => Str.is_whitespace x = false) (upper_char c).
Proof.
  intros Hc. unfold upper_char.
  repeat match goal with
         | |- context [if ?b then _ else _] => destruct b eqn:?
         end;
    try (split; [discriminate|repeat constructor]); try exact Hc.
  unfold Str.is_whitespace. apply andb_true_iff in Heqb as [H1 H2].
  apply Z.leb_le in H1, H2.
  repeat match goal with
         | |- context [?a <=? ?b] => destruct (Z.leb_spec a b)
         | |- context [?a =? ?b] => destruct (Z.eqb_spec a b)
         end; simpl; try reflexivity; lia.
Qed.

Lemma upper_trimmed (s : str) : trimmed s -> trimmed (upper s).
Proof.
  intros [Hh Hl]. unfold trimmed, upper. split.
  - destruct s as [|c s]; [exact I|]. simpl.
    destruct (upper_char_not_whitespace c Hh) as [Hne Hall].
    destruct (upper_char c) as [|x xs]; [congruence|]. simpl. now inversion Hall.
  - destruct s as [|c s _] using rev_ind; [exact I|].
    rewrite last_snoc in Hl. rewrite flat_map_app. simpl. rewrite app_nil_r.
    destruct (upper_char_not_whitespace c Hl) as [Hne Hall].
    destruct (upper_char c) as [|x xs _] using rev_ind; [congruence|].
    rewrite app_assoc, last_snoc.
    rewrite List.Forall_forall in Hall. apply Hall, in_or_app. right. now left.
Qed.

(** A character of the class [[A-Z0-9 ]] is its own upper-case form. *)
Lemma upper_plate_chars (s : str) : forallb is_plate_char s = true -> upper s = s.
Proof.
  induction s as [|c s IH]; [reflexivity|]. simpl. intros H.
  apply andb_true_iff in H as [Hc Hs]. unfold upper in *. rewrite (IH Hs).
  assert (E : upper_char c = [c]); [|now rewrite E].
  unfold is_plate_char, is_upper_letter, is_digit in Hc. unfold upper_char.
  repeat match goal with
         | |- context [?a <=? ?b] => destruct (Z.leb_spec a b)
         | |- context [?a =? ?b] => destruct (Z.eqb_spec a b)
         | H : context [?a <=? ?b] |- _ => destruct (Z.leb_spec a b)
         | H : context [?a =? ?b] |- _ => destruct (Z.eqb_spec a b)
         end; simpl in *; try reflexivity; try discriminate; lia.
Qed.

(** The format test on a trimmed string: all of it is of the class. *)
Lemma plate_format_trimmed (s : str) :
  trimmed s -> plate_format s = Str.truthy s && forallb is_plate_char s.
Proof.
  intros [_ Hl]. unfold plate_format.
  destruct (last s) as [c|]; [|reflexivity].
  destruct (Z.eq_dec c 10) as [->|Hc]; [discriminate|].
  destruct c as [|p|p]; try reflexivity.
  do 4 (destruct p as [p|p|]; try reflexivity). congruence.
Qed.

Lemma exclude_instance_In {R : Type} (instance_pk : option Z) (qs : list (Z * R))
    (r : Z * R) :
  In r (exclude_instance instance_pk qs) <-> In r qs /\ is_other instance_pk (fst r).
Proof.
  unfold exclude_instance, is_other. destruct instance_pk as [pk|]; [|tauto].
  destruct (Z.eqb_spec pk 0) as [->|Hpk]; [tauto|].
  rewrite filter_In, negb_true_iff, Z.eqb_neq. tauto.
Qed.

Lemma vehicles_by_plate_In (db : DB) (j : Z) (v : Vehicle) :
  In (j, v) (vehicles_by_plate db) <-> vehicles db !! j = Some v.
Proof. unfold vehicles_by_plate. rewrite stable_sort_In. apply table_rows_In. Qed.

Lemma first_None_nil {A : Type} (l : list A) : first l = None <-> l = [].
Proof. unfold first. destruct l; simpl; split; intros; congruence. Qed.

(** X18: [clean_nume] keeps employee names unique up to case. For a
    non-empty input it either returns the trimmed name, on which trimming
    has no further effect, and then no other employee, active or not, bears
    that name up to case; or it raises the error that quotes an employee,
    other than the one being edited, that bears it. *)
Theorem clean_nume_keeps_names_unique (db : DB) (instance_pk : option Z) (n : str) :
  Str.truthy n = true ->
  (clean_nume db instance_pk (Some n) = Clean (Some (Str.strip n)) /\
   Str.strip (Str.strip n) = Str.strip n /\
   forall j e, employees db !! j = Some e -> is_other instance_pk j ->
               Str.iexact (nume e) (Str.strip n) = false) \/
  (exists j e, clean_nume db instance_pk (Some n) = ValidationError (msg_employee_exists db e) /\
               employees db !! j = Some e /\ is_other instance_pk j /\
               Str.iexact (nume e) (Str.strip n) = true).
Proof.
  intros Hn. unfold clean_nume. rewrite Hn. simpl.
  destruct (first (exclude_instance instance_pk _)) as [[j e]|] eqn:E.
  - right. exists j, e. split; [reflexivity|].
    assert (Hin : In (j, e) (exclude_instance instance_pk
               (List.filter (fun r => Str.iexact (nume (snd r)) (Str.strip n))
                            (employees_by_nume db)))).
    { destruct (exclude_instance _ _); [discriminate|]. injection E as ->. now left. }
    apply exclude_instance_In in Hin as [Hin Ho]. apply filter_In in Hin as [Hin Hm].
    apply employees_by_nume_In in Hin. auto.
  - left. split; [reflexivity|]. split; [apply strip_idem|].
    intros j e Hj Ho. apply first_None_nil in E.
    destruct (Str.iexact (nume e) (Str.strip n)) eqn:Hm; [|reflexivity].
    assert (Hin : In (j, e) (exclude_instance instance_pk
               (List.filter (fun r => Str.iexact (nume (snd r)) (Str.strip n))
                            (employees_by_nume db)))).
    { apply exclude_instance_In. split; [|exact Ho].
      apply filter_In. split; [now apply employees_by_nume_In | exact Hm]. }
    rewrite E in Hin. destruct Hin.
Qed.

Lemma clean_nume_keeps_names_unique_witness :
  (clean_nume Examples.fresh None (Some (Str.lit " John ")) = Clean (Some (Str.strip " John ")) /\
   Str.strip (Str.strip " John ") = Str.strip " John " /\
   forall j e, employees Examples.fresh !! j = Some e -> is_other None j ->
               Str.iexact (nume e) (Str.strip " John ") = false) \/
  (exists j e, clean_nume Examples.fresh None (Some (Str.lit " John "))
               = ValidationError (msg_employee_exists Examples.fresh e) /\
               employees Examples.fresh !! j = Some e /\ is_other None j /\
               Str.iexact (nume e) (Str.strip " John ") = true).
Proof. apply (clean_nume_keeps_names_unique Examples.fresh None " John "). reflexivity. Defined.

(** X19: [clean_plate_number] returns plates in normal form. A non-empty
    input that is accepted comes back trimmed and in upper case; it is made
    of capital letters, digits and spaces only, with at least one letter and
    one digit; trimming or upper-casing it again changes nothing; no other
    vehicle, active or not, has that plate up to case; and cleaning the
    result once more accepts it unchanged. *)
Theorem clean_plate_number_normalizes (db : DB) (instance_pk : option Z) (raw v : str) :
  Str.truthy raw = true ->
  clean_plate_number db instance_pk (Some raw) = Clean (Some v) ->
  v = upper (Str.strip raw) /\
  Str.truthy v = true /\ forallb is_plate_char v = true /\
  existsb is_upper_letter v = true /\ existsb is_digit v = true /\
  Str.strip v = v /\ upper v = v /\
  (forall j veh, vehicles db !! j = Some veh -> is_other instance_pk j ->
                 Str.iexact (plate_number veh) v = false) /\
  clean_plate_number db instance_pk (Some v) = Clean (Some v).
Proof.
  intros Hraw. unfold clean_plate_number at 1. rewrite Hraw. simpl.
  set (plate := upper (Str.strip raw)).
  assert (Htrim : trimmed plate) by apply upper_trimmed, strip_trimmed.
  destruct (plate_format plate) eqn:Hf; simpl; [|discriminate].
  destruct (existsb is_upper_letter plate) eqn:Hl; simpl; [|discriminate].
  destruct (existsb is_digit plate) eqn:Hd; simpl; [|discriminate].
  destruct (exclude_instance instance_pk _) as [|r rs] eqn:Hq; [|discriminate].
  intros [= <-].
  pose proof Hf as Hf'. rewrite (plate_format_trimmed _ Htrim) in Hf'.
  apply andb_true_iff in Hf' as [Ht Hchars].
  assert (Hstrip : Str.strip plate = plate) by now apply trimmed_strip.
  assert (Hupper : upper plate = plate) by now apply upper_plate_chars.
  repeat split; auto.
  - intros j veh Hj Ho.
    destruct (Str.iexact (plate_number veh) plate) eqn:Hm; [|reflexivity].
    assert (Hin : In (j, veh) (exclude_instance instance_pk
               (List.filter (fun r => Str.iexact (plate_number (snd r)) plate)
                            (vehicles_by_plate db)))).
    { apply exclude_instance_In. split; [|exact Ho].
      apply filter_In. split; [now apply vehicles_by_plate_In | exact Hm]. }
    rewrite Hq in Hin. destruct Hin.
  - unfold clean_plate_number. rewrite Ht. simpl.
    rewrite Hstrip, Hupper, Hf, Hl, Hd. simpl. now rewrite Hq.
Qed.

Lemma clean_plate_number_normalizes_witness :
  clean_plate_number Examples.fresh None (Some (Str.lit "S1 AB")) = Clean (Some (Str.lit "S1 AB")).
Proof.
  refine (proj2 (proj2 (proj2 (proj2 (proj2 (proj2 (proj2 (proj2
            (clean_plate_number_normalizes Examples.fresh None
               (32 :: 383 :: Str.lit "1 ab ") (Str.lit "S1 AB") _ _))))))))).
  - reflexivity.
  - reflexivity.
Defined.

(** * Further properties: the entry views *)

Lemma is_officer_not_admin (u : User) : is_officer u = negb (is_admin u).
Proof. unfold is_officer, is_admin. now destruct (role u), (is_superuser u). Qed.

Lemma present_ids_In (t : EntityType) (present : list PresentRow) (pk : Z) :
  pk ∈ present_ids t present <->
  exists p, In p present /\ (p_entity_type p, p_entity_id p) = (t, pk).
Proof.
  unfold present_ids. rewrite list_elem_of_In, in_map_iff. split.
  - intros (p & <- & Hp). apply filter_In in Hp as [Hp Ht].
    apply bool_decide_eq_true in Ht. exists p. split; [exact Hp|]. now rewrite Ht.
  - intros (p & Hp & [= Ht Hi]). exists p. split; [exact Hi|].
    apply filter_In. split; [exact Hp|]. now apply bool_decide_eq_true_2.
Qed.

(** The location under which a view records: the one [get_user_location]
    gives, or, for an administrator who selected none, the location at which
    the entity is registered. *)
Lemma officer_location (db : DB) (request : Request) :
  is_officer (user request) = true ->
  is_admin (user request) = false /\
  get_user_location db request = user_location (user request).
Proof.
  intros Ho. rewrite is_officer_not_admin in Ho. apply negb_true_iff in Ho.
  split; [exact Ho|]. unfold get_user_location. now rewrite Ho.
Qed.

(** X20: what [EmployeeEntryView.post] can write. Either the database is
    left as it was and the response carries no [HX-Trigger]; or the posted
    direction is valid, the employee is active, the response is the success
    alert, and the log has grown by exactly one row: the employee's event in
    that direction, stamped with the clock and signed by the requesting
    user. For an officer the row is at the officer's own location; an IN is
    only written for an employee registered there, and an OUT only for an
    employee the present-now listing of that location shows. For an
    administrator it is at the selected active location or, with none
    selected, at the location where the employee is registered. *)
Theorem employee_entry_post_scope (db : DB) (request : Request)
    (direction : option str) (pk now : Z) :
  let r := employee_entry_post db request direction pk now in
  (snd r = db /\ forall s c h, fst r = HttpResponse s c h -> h = None) \/
  (exists d loc e,
     posted_direction direction = Some d /\ active_employee db pk = Some e /\
     fst r = HttpResponse 200
               (alert_dismissible "success"
                  (nume e +:+ ": " +:+ action_label d +:+ " inregistrata cu succes"))
               (Some hx_refresh) /\
     snd r = insert_row db loc EMPLOYEE pk d (user_pk (user request)) now /\
     log (snd r) = log db ++ [mkLogEntry loc EMPLOYEE pk d now (Some (user_pk (user request)))] /\
     (is_officer (user request) = true ->
      user_location (user request) = Some loc /\
      (d = IN -> emp_location e = loc) /\
      (d = OUT -> exists p, In p (get_present_now db (Some loc)) /\
                            (p_entity_type p, p_entity_id p) = (EMPLOYEE, pk))) /\
     (is_officer (user request) = false ->
      get_user_location db request = Some loc \/
      (get_user_location db request = None /\ loc = emp_location e))).
Proof.
  intros r. unfold r, employee_entry_post.
  destruct (posted_direction direction) as [d|]; [|left; split; [reflexivity|now intros ? ? ? [= _ _ <-]]].
  destruct (active_employee db pk) as [e|] eqn:He; [|left; split; [reflexivity|discriminate]].
  cbv zeta.
  set (location := match get_user_location db request with
                   | None => if is_admin (user request) then Some (emp_location e) else None
                   | Some _ => get_user_location db request
                   end).
  destruct location as [loc|] eqn:Hloc;
    [|left; split; [reflexivity|now intros ? ? ? [= _ _ <-]]].
  destruct (is_officer (user request) && bool_decide (d = IN) && negb (emp_location e =? loc))
    eqn:G1; [left; split; [reflexivity|now intros ? ? ? [= _ _ <-]]|].
  destruct (is_officer (user request) && bool_decide (d = OUT) &&
            negb (bool_decide (pk ∈ present_ids EMPLOYEE (get_present_now db (Some loc)))))
    eqn:G2; [left; split; [reflexivity|now intros ? ? ? [= _ _ <-]]|].
  destruct (mark_employee_entry_cases db pk d loc (user_pk (user request)) now)
    as [[Hf Hdb]|(Hs & Hdb & _)];
    destruct (mark_employee_entry db pk d loc (user_pk (user request)) now)
      as [db' [success message]]; simpl in *; subst.
  - left. split; [reflexivity|now intros ? ? ? [= _ _ <-]].
  - right. exists d, loc, e.
    do 5 (split; [reflexivity|]). split.
    + intros Ho. destruct (officer_location db request Ho) as [Ha Hu].
      split; [|split].
      * unfold location in Hloc. rewrite Ha, Hu in Hloc.
        destruct (user_location (user request)); [exact Hloc|discriminate].
      * intros ->. rewrite Ho in G1. simpl in G1.
        apply negb_false_iff, Z.eqb_eq in G1. exact G1.
      * intros ->. rewrite Ho in G2. simpl in G2.
        apply negb_false_iff, bool_decide_eq_true in G2.
        now apply present_ids_In.
    + intros Ho. unfold location in Hloc.
      destruct (get_user_location db request) as [l|]; [left; exact Hloc|].
      right. split; [reflexivity|].
      destruct (is_admin (user request)); [now injection Hloc|discriminate].
Qed.

(** X21: what [VehicleEntryView.post] can write. Either the database is left
    as it was and the response carries no [HX-Trigger]; or the posted
    direction is valid, the vehicle is active, and the log has grown by the
    vehicle's event, stamped and signed by the requesting user, followed by
    at most one mirrored employee event at the same location, in the same
    direction and with the same signature. For an officer these rows are at
    the officer's own location; an IN is only written for a vehicle
    registered there, and an OUT only for a vehicle the present-now listing
    of that location shows. For an administrator they are at the selected
    active location or, with none selected, where the vehicle is
    registered. *)
Theorem vehicle_entry_post_scope (db : DB) (request : Request)
    (direction : option str) (pk now now2 : Z) :
  let r := vehicle_entry_post db request direction pk now now2 in
  (snd r = db /\ forall s c h, fst r = HttpResponse s c h -> h = None) \/
  (exists d loc v rows,
     posted_direction direction = Some d /\ active_vehicle db pk = Some v /\
     (exists c, fst r = HttpResponse 200 c (Some hx_refresh)) /\
     log (snd r)
     = log db ++ mkLogEntry loc VEHICLE pk d now (Some (user_pk (user request))) :: rows /\
     (rows = [] \/
      exists j, rows = [mkLogEntry loc EMPLOYEE j d now2 (Some (user_pk (user request)))]) /\
     (is_officer (user request) = true ->
      user_location (user request) = Some loc /\
      (d = IN -> veh_location v = loc) /\
      (d = OUT -> exists p, In p (get_present_now db (Some loc)) /\
                            (p_entity_type p, p_entity_id p) = (VEHICLE, pk))) /\
     (is_officer (user request) = false ->
      get_user_location db request = Some loc \/
      (get_user_location db request = None /\ loc = veh_location v))).
Proof.
  intros r. unfold r, vehicle_entry_post.
  destruct (posted_direction direction) as [d|]; [|left; split; [reflexivity|now intros ? ? ? [= _ _ <-]]].
  destruct (active_vehicle db pk) as [v|] eqn:Hv; [|left; split; [reflexivity|discriminate]].
  cbv zeta.
  set (location := match get_user_location db request with
                   | None => if is_admin (user request) then Some (veh_location v) else None
                   | Some _ => get_user_location db request
                   end).
  destruct location as [loc|] eqn:Hloc;
    [|left; split; [reflexivity|now intros ? ? ? [= _ _ <-]]].
  destruct (is_officer (user request) && bool_decide (d = IN) && negb (veh_location v =? loc))
    eqn:G1; [left; split; [reflexivity|now intros ? ? ? [= _ _ <-]]|].
  destruct (is_officer (user request) && bool_decide (d = OUT) &&
            negb (bool_decide (pk ∈ present_ids VEHICLE (get_present_now db (Some loc)))))
    eqn:G2; [left; split; [reflexivity|now intros ? ? ? [= _ _ <-]]|].
  destruct (mark_vehicle_entry_cases db pk d loc (user_pk (user request)) now now2)
    as [[Hf Hdb]|(Hs & _ & v' & Hv' & Hdb)];
    destruct (mark_vehicle_entry db pk d loc (user_pk (user request)) now now2)
      as [db' [success message]]; simpl in *; subst.
  - left. split; [reflexivity|now intros ? ? ? [= _ _ <-]].
  - right. rewrite Hv in Hv'. injection Hv' as <-.
    assert (Hrows : exists rows,
               log db' = log db ++ mkLogEntry loc VEHICLE pk d now
                                     (Some (user_pk (user request))) :: rows /\
               (rows = [] \/
                exists j, rows = [mkLogEntry loc EMPLOYEE j d now2
                                    (Some (user_pk (user request)))])).
    { destruct (owner_employee db v) as [[j e]|];
        [destruct (should_mark d _)|]; rewrite Hdb; simpl.
      - eexists. rewrite <- app_assoc. split; [reflexivity|]. right. now exists j.
      - exists []. split; [reflexivity|]. now left.
      - exists []. split; [reflexivity|]. now left. }
    destruct Hrows as (rows & Hlog & Hrows).
    exists d, loc, v, rows.
    do 2 (split; [reflexivity|]). split; [eexists; reflexivity|].
    split; [exact Hlog|]. split; [exact Hrows|]. split.
    + intros Ho. destruct (officer_location db request Ho) as [Ha Hu].
      split; [|split].
      * unfold location in Hloc. rewrite Ha, Hu in Hloc.
        destruct (user_location (user request)); [exact Hloc|discriminate].
      * intros ->. rewrite Ho in G1. simpl in G1.
        apply negb_false_iff, Z.eqb_eq in G1. exact G1.
      * intros ->. rewrite Ho in G2. simpl in G2.
        apply negb_false_iff, bool_decide_eq_true in G2.
        now apply present_ids_In.
    + intros Ho. unfold location in Hloc.
      destruct (get_user_location db request) as [l|]; [left; exact Hloc|].
      right. split; [reflexivity|].
      destruct (is_admin (user request)); [now injection Hloc|discriminate].
Qed.

(** * Further properties: the navigation bar *)

Lemma sum_values_insert (counts : gmap Z nat) (k : Z) (n : nat) :
  (sum_values (<[k := n]> counts) + default O (counts !! k) = sum_values counts + n)%nat.
Proof.
  unfold sum_values.
  assert (Hcomm : forall (m : gmap Z nat) (i : Z) (x : nat), m !! i = None ->
            map_fold (fun _ n acc => (n + acc)%nat) O (<[i := x]> m)
            = (x + map_fold (fun _ n acc => (n + acc)%nat) O m)%nat).
  { intros m i x Hi. apply (map_fold_insert_L (fun _ n acc => (n + acc)%nat)); [|exact Hi].
    intros. lia. }
  destruct (counts !! k) as [d|] eqn:E; simpl.
  - pose proof (Hcomm (delete k counts) k n (lookup_delete_eq counts k)) as H1.
    pose proof (Hcomm (delete k counts) k d (lookup_delete_eq counts k)) as H2.
    rewrite insert_delete_eq in H1. rewrite (insert_delete_id _ _ _ E) in H2. lia.
  - rewrite Hcomm by exact E. lia.
Qed.

Lemma sum_values_fold (rows : list LogEntry) (counts : gmap Z nat) :
  sum_values
    (fold_left (fun counts e => <[location e := S (default O (counts !! location e))]> counts)
               rows counts)
  = (sum_values counts + length rows)%nat.
Proof.
  revert counts. induction rows as [|e rest IH]; intros counts; simpl; [lia|].
  rewrite IH.
  pose proof (sum_values_insert counts (location e) (S (default O (counts !! location e)))).
  lia.
Qed.

(** The rows the counting query keeps for the employees. *)
Lemma employee_present_rows_In (db : DB) (r : LogEntry) :
  In r (select_present
          (last_events (List.filter (fun e => bool_decide (entity_type e = EMPLOYEE)) (log db)))) <->
  entity_type r = EMPLOYEE /\
  first (order_by_timestamp_desc (entity_log db EMPLOYEE (entity_id r))) = Some r /\
  direction r = IN.
Proof.
  rewrite select_present_In, filter_has_key_kind. simpl. unfold entity_log.
  destruct (decide (entity_type r = EMPLOYEE)) as [Ht|Ht].
  - rewrite (bool_decide_eq_true_2 _ Ht).
    rewrite <- (List.filter_ext _ _ (has_key_is_entity EMPLOYEE (entity_id r))).
    unfold entity_key. rewrite Ht. tauto.
  - rewrite (bool_decide_eq_false_2 _ Ht). simpl.
    split; [intros [[=] _] | tauto].
Qed.

Lemma NoDup_map_filter {A B : Type} (f : A -> B) (q : A -> bool) (l : list A) :
  List.NoDup (map f l) -> List.NoDup (map f (List.filter q l)).
Proof.
  induction l as [|x xs IH]; simpl; [auto|].
  intros H. inversion H as [|? ? Hx Hxs]; subst.
  destruct (q x); simpl; [|auto]. constructor; [|auto].
  intros Hin. apply Hx. apply in_map_iff in Hin as (y & Hy & Hin).
  apply filter_In in Hin as [Hin _]. apply in_map_iff. eauto.
Qed.

(** The employees counted under a condition on their latest event. *)
Lemma count_employee_rows (db : DB) (q : LogEntry -> bool) :
  length (List.filter q
            (select_present
               (last_events
                  (List.filter (fun e => bool_decide (entity_type e = EMPLOYEE)) (log db)))))
  = length (List.filter
              (fun i => match first (order_by_timestamp_desc (entity_log db EMPLOYEE i)) with
                        | Some e => bool_decide (direction e = IN) && q e
                        | None => false
                        end)
              (logged_employees db)).
Proof.
  set (rows := select_present _).
  rewrite <- (length_map entity_id (List.filter q rows)).
  apply Permutation_length, Permutation.NoDup_Permutation.
  - apply NoDup_map_filter.
    assert (Hk : map entity_key rows = map (pair EMPLOYEE) (map entity_id rows)).
    { rewrite map_map. apply map_ext_in. intros r Hr.
      apply employee_present_rows_In in Hr as [Ht _]. unfold entity_key. now rewrite Ht. }
    pose proof (select_present_keys_NoDup
                  (List.filter (fun e => bool_decide (entity_type e = EMPLOYEE)) (log db))) as Hnd.
    fold rows in Hnd. rewrite Hk in Hnd. now apply List.NoDup_map_inv in Hnd.
  - apply List.NoDup_filter, List.NoDup_nodup.
  - intros i. rewrite in_map_iff, filter_In. unfold logged_employees. rewrite nodup_In. split.
    + intros (r & <- & Hr). apply filter_In in Hr as [Hr Hq].
      apply employee_present_rows_In in Hr as (Ht & Hf & Hd). split.
      * apply in_map, filter_In. split; [|now apply bool_decide_eq_true_2].
        apply first_desc_latest in Hf as [Hin _]. now apply filter_In in Hin as [? _].
      * rewrite Hf, Hq. now rewrite bool_decide_eq_true_2.
    + intros [_ Hi].
      destruct (first (order_by_timestamp_desc (entity_log db EMPLOYEE i))) as [r|] eqn:Hf;
        [|discriminate].
      apply andb_true_iff in Hi as [Hd Hq]. apply bool_decide_eq_true in Hd.
      pose proof (first_desc_latest _ _ Hf) as [Hin _].
      apply filter_In in Hin as [_ Hk]. apply is_entity_true in Hk as [Ht Hid].
      exists r. split; [exact Hid|]. apply filter_In. split; [|exact Hq].
      apply employee_present_rows_In. rewrite Hid. auto.
Qed.

(** X22: the numbers of the navigation bar count employees. For an
    administrator the total is the number of employees that
    [is_entity_present] finds present; for every user, the count shown for a
    location (0 when the dictionary has no key for it) is the number of
    employees whose most recent event, over all locations, is an IN logged
    at that location. *)
Theorem navbar_counts_present_employees (db : DB) (request : Request) :
  (is_admin (user request) = true ->
   nav_total_present (navbar_context db request)
   = Some (length (List.filter (fun i => is_entity_present db EMPLOYEE i)
                               (logged_employees db)))) /\
  (forall k, default O (get_present_counts_by_location db true !! k)
             = length (List.filter (present_at db k) (logged_employees db))) /\
  (is_admin (user request) = false -> forall l,
   user_location (user request) = Some l ->
   nav_present_counts (navbar_context db request)
   = Some (length (List.filter (present_at db l) (logged_employees db)))).
Proof.
  assert (Hk : forall k, default O (get_present_counts_by_location db true !! k)
                         = length (List.filter (present_at db k) (logged_employees db))).
  { intros k. unfold get_present_counts_by_location.
    rewrite fold_count_lookup, lookup_empty. simpl.
    rewrite (count_employee_rows db (fun e => location e =? k)).
    unfold present_at. now destruct (length _). }
  split; [|split; [exact Hk|]].
  - intros Ha.
    assert (Ht : sum_values (get_present_counts_by_location db true)
                 = length (List.filter (fun i => is_entity_present db EMPLOYEE i)
                                       (logged_employees db))).
    { unfold get_present_counts_by_location. rewrite sum_values_fold.
      unfold sum_values. rewrite map_fold_empty. simpl.
      rewrite <- (filter_all (fun _ => true) (select_present _)) by reflexivity.
      rewrite (count_employee_rows db (fun _ => true)).
      f_equal. apply List.filter_ext. intros i.
      unfold is_entity_present, get_last_direction. fold (entity_log db EMPLOYEE i).
      destruct (first _) as [e|]; [|reflexivity].
      rewrite andb_true_r. destruct (direction e); reflexivity. }
    unfold navbar_context. rewrite Ha. cbv zeta.
    destruct (current_location_id request) as [l|]; [destruct (l =? 0)|]; simpl;
      now rewrite Ht.
  - intros Ha l Hl. unfold navbar_context. rewrite Ha, Hl. simpl. now rewrite Hk.
Qed.

(** * Further properties: how the parts fit together *)

Lemma filter_comm {A : Type} (p q : A -> bool) (l : list A) :
  List.filter p (List.filter q l) = List.filter q (List.filter p l).
Proof.
  induction l as [|x xs IH]; simpl; [reflexivity|].
  destruct (p x) eqn:Ep, (q x) eqn:Eq; simpl; rewrite ?Ep, ?Eq, IH; reflexivity.
Qed.

Lemma entity_log_at_location (db : DB) (l : Z) (t : EntityType) (i : Z) :
  entity_log (at_location db (Some l)) t i
  = List.filter (fun e => location e =? l) (entity_log db t i).
Proof. unfold entity_log, at_location. simpl. apply filter_comm. Qed.

(** X23: for an entity that only ever moved through one location, the
    listing of that location is right: it shows the entity exactly when the
    entity has its table row and [is_entity_present] says it is present, and
    the listing of any other location does not show it. *)
Theorem listing_right_within_one_location (db : DB) (t : EntityType) (i l : Z) :
  (forall e, In e (entity_log db t i) -> location e = l) ->
  ((exists p, In p (get_present_now db (Some l)) /\
              (p_entity_type p, p_entity_id p) = (t, i)) <->
   registered db t i /\ is_entity_present db t i = true) /\
  (forall l', l' <> l ->
     ~ exists p, In p (get_present_now db (Some l')) /\
                 (p_entity_type p, p_entity_id p) = (t, i)).
Proof.
  intros Hall. split.
  - rewrite get_present_now_lists. unfold is_entity_present, get_last_direction.
    fold (entity_log (at_location db (Some l)) t i). fold (entity_log db t i).
    rewrite entity_log_at_location, filter_all, bool_decide_eq_true; [tauto|].
    intros e He. apply Z.eqb_eq. auto.
  - intros l' Hl' H. apply get_present_now_lists in H as [_ H].
    unfold get_last_direction in H.
    fold (entity_log (at_location db (Some l')) t i) in H.
    rewrite entity_log_at_location, filter_none in H; [discriminate|].
    intros e He. apply Z.eqb_neq. rewrite (Hall e He). congruence.
Qed.

Lemma listing_right_within_one_location_witness :
  (exists p, In p (get_present_now Examples.inside (Some 1)) /\
             (p_entity_type p, p_entity_id p) = (EMPLOYEE, 7)) <->
  registered Examples.inside EMPLOYEE 7 /\ is_entity_present Examples.inside EMPLOYEE 7 = true.
Proof.
  apply (listing_right_within_one_location Examples.inside EMPLOYEE 7 1).
  intros e [<-|[]]. reflexivity.
Defined.

(** The row of the listing for an entity: its entry time and location are
    those of the latest event selected for the entity. *)
Lemma get_present_now_row (db : DB) (loc : option Z) (p : PresentRow) :
  In p (get_present_now db loc) ->
  exists r,
    first (order_by_timestamp_desc
             (entity_log (at_location db loc) (p_entity_type p) (p_entity_id p))) = Some r /\
    direction r = IN /\ p_entry_time p = timestamp r /\
    p_entry_location p = locations db !! location r.
Proof.
  unfold get_present_now. intros Hp.
  apply list_elem_of_In, list_elem_of_omap in Hp as (r & Hr & Hrow).
  apply list_elem_of_In, present_rows_In in Hr as [Hf Hd].
  exists r. pose proof (present_row_entity _ _ _ _ _ Hrow) as (Ht & Hi & _).
  rewrite Ht, Hi. unfold entity_log.
  rewrite <- (List.filter_ext _ _ (has_key_is_entity (entity_type r) (entity_id r))).
  split; [exact Hf|]. split; [exact Hd|].
  unfold present_row in Hrow.
  destruct (entity_type r); [destruct (_ !! entity_id r)|destruct (_ !! entity_id r)];
    try discriminate; injection Hrow as <-; split; reflexivity.
Qed.

(** X24: an accepted employee event shows in the listings at once. With the
    clock past the employee's earlier events, after an accepted IN at a
    location both the listing of that location and the listing of all
    locations show the employee, with the time of the event as entry time
    and that location as entry location; after an accepted OUT neither of
    the two shows the employee. *)
Theorem accepted_event_shows_in_listing (db : DB) (i : Z) (d : Direction)
    (loc by_user now : Z) :
  fst (snd (mark_employee_entry db i d loc by_user now)) = true ->
  (forall e, In e (entity_log db EMPLOYEE i) -> timestamp e < now) ->
  let db' := fst (mark_employee_entry db i d loc by_user now) in
  forall filter, filter = Some loc \/ filter = None ->
    (d = IN ->
     exists p, In p (get_present_now db' filter) /\
               (p_entity_type p, p_entity_id p) = (EMPLOYEE, i) /\
               p_entry_time p = now /\ p_entry_location p = locations db !! loc) /\
    (d = OUT ->
     forall p, In p (get_present_now db' filter) ->
               (p_entity_type p, p_entity_id p) <> (EMPLOYEE, i)).
Proof.
  intros Hok Hclock db' filter Hfilter.
  destruct (mark_employee_entry_cases db i d loc by_user now)
    as [[Hf _]|(_ & Hdb & [e He] & _)]; [congruence|].
  fold db' in Hdb.
  set (row := mkLogEntry loc EMPLOYEE i d now (Some by_user)).
  assert (Hlatest : first (order_by_timestamp_desc (entity_log (at_location db' filter) EMPLOYEE i))
                    = Some row).
  { assert (Hlog : entity_log (at_location db' filter) EMPLOYEE i
                   = entity_log (at_location db filter) EMPLOYEE i ++ [row]).
    { rewrite Hdb. destruct Hfilter as [-> | ->].
      - rewrite !entity_log_at_location, entity_log_insert_row.
        rewrite bool_decide_eq_true_2 by reflexivity.
        rewrite List.filter_app. simpl. now rewrite Z.eqb_refl.
      - change (entity_log (insert_row db loc EMPLOYEE i d by_user now) EMPLOYEE i
                = entity_log db EMPLOYEE i ++ [row]).
        rewrite entity_log_insert_row. now rewrite bool_decide_eq_true_2. }
    rewrite Hlog. apply first_desc_newest. intros x Hx. simpl. apply Hclock.
    destruct Hfilter as [-> | ->].
    - rewrite entity_log_at_location in Hx. now apply filter_In in Hx as [? _].
    - exact Hx. }
  split.
  - intros ->.
    assert (Hlisted : exists p, In p (get_present_now db' filter) /\
                                (p_entity_type p, p_entity_id p) = (EMPLOYEE, i)).
    { apply get_present_now_lists. split.
      - unfold registered. rewrite Hdb. simpl. unfold active_employee in He.
        destruct (employees db !! i); [eauto|discriminate].
      - unfold get_last_direction. fold (entity_log (at_location db' filter) EMPLOYEE i).
        now rewrite Hlatest. }
    destruct Hlisted as (p & Hp & Hk). exists p. split; [exact Hp|]. split; [exact Hk|].
    apply get_present_now_row in Hp as (r & Hr & _ & Ht & Hl).
    injection Hk as Hkt Hki. rewrite Hkt, Hki, Hlatest in Hr. injection Hr as <-.
    rewrite Ht, Hl, Hdb. split; reflexivity.
  - intros -> p Hp [= Hkt Hki].
    apply get_present_now_row in Hp as (r & Hr & Hd & _).
    rewrite Hkt, Hki, Hlatest in Hr. injection Hr as <-. discriminate.
Qed.

Lemma accepted_event_shows_in_listing_witness :
  exists p, In p (get_present_now Examples.after_in (Some 1)) /\
            (p_entity_type p, p_entity_id p) = (EMPLOYEE, 7) /\
            p_entry_time p = Examples.nine /\
            p_entry_location p = locations Examples.fresh !! 1.
Proof.
  refine (proj1 (accepted_event_shows_in_listing Examples.fresh 7 IN 1 100 Examples.nine
                   _ _ (Some 1) _) _).
  - reflexivity.
  - intros e [].
  - now left.
  - reflexivity.
Defined.

(** A visit paired from the events of an entity logged in chronological
    order is in the history, when neither filters nor the cap cut it. *)
Lemma history_of_chronological_entity (db : DB) (limit : Z) (t : EntityType) (i : Z)
    (v : Visit) :
  chronological (entity_log db t i) ->
  Z.of_nat (length (log db)) <= limit ->
  In v (pair_entity db [] ((t, i), entity_log db t i)) ->
  In v (get_visit_history db None None None None limit).
Proof.
  intros Hc Hlimit Hv. rewrite history_uncapped by exact Hlimit.
  assert (Hin : In v (List.filter (visit_of (t, i)) (paired_visits db None None None None))).
  { rewrite paired_visits_of_entity, (unfiltered_entries_of_entity _ _ _ Hc).
    unfold sort_visits. now apply stable_sort_In. }
  now apply filter_In in Hin as [Hin _].
Qed.

(** X25: an accepted employee event shows in the history at once. For an
    employee whose events were logged in chronological order, with the clock
    past them, and with neither filters nor a binding cap: after an accepted
    IN the history holds the open visit that starts with this event; after
    an accepted OUT it holds the closed visit from the employee's last
    event, which is an IN, to this event. *)
Theorem accepted_event_shows_in_history (db : DB) (i : Z) (d : Direction)
    (loc by_user now limit : Z) :
  fst (snd (mark_employee_entry db i d loc by_user now)) = true ->
  chronological (entity_log db EMPLOYEE i) ->
  (forall e, In e (entity_log db EMPLOYEE i) -> timestamp e < now) ->
  Z.of_nat (length (log db)) < limit ->
  let db' := fst (mark_employee_entry db i d loc by_user now) in
  let row := mkLogEntry loc EMPLOYEE i d now (Some by_user) in
  (d = IN ->
   In (open_visit db' EMPLOYEE i row) (get_visit_history db' None None None None limit)) /\
  (d = OUT ->
   exists c, last (entity_log db EMPLOYEE i) = Some c /\ direction c = IN /\
             In (closed_visit db' EMPLOYEE i c row)
                (get_visit_history db' None None None None limit)).
Proof.
  intros Hok Hc Hclock Hlimit db' row.
  destruct (mark_employee_entry_cases db i d loc by_user now)
    as [[Hf _]|(_ & Hdb & _ & Hp)]; [congruence|].
  fold db' in Hdb.
  assert (Hlog : entity_log db' EMPLOYEE i = entity_log db EMPLOYEE i ++ [row]).
  { rewrite Hdb, entity_log_insert_row. now rewrite bool_decide_eq_true_2. }
  assert (Hc' : chronological (entity_log db' EMPLOYEE i)).
  { rewrite Hlog. apply chronological_snoc. split; [exact Hc|]. exact Hclock. }
  assert (Hlimit' : Z.of_nat (length (log db')) <= limit).
  { rewrite Hdb. simpl. rewrite length_app. simpl. lia. }
  split.
  - intros Hd. apply (history_of_chronological_entity db' limit EMPLOYEE i _ Hc' Hlimit').
    unfold pair_entity.
    pose proof (pair_loop_final_slot db' EMPLOYEE i (entity_log db' EMPLOYEE i) (None, []))
      as Hs.
    rewrite Hlog, last_snoc in Hs. simpl in Hs.
    rewrite (bool_decide_eq_true_2 _ Hd) in Hs. rewrite Hlog.
    destruct (pair_loop db' EMPLOYEE i (None, []) (entity_log db EMPLOYEE i ++ [row]))
      as [slot vs].
    simpl in Hs. subst slot. apply in_or_app. right. now left.
  - intros Hd. rewrite Hd in Hp. simpl in Hp.
    unfold is_entity_present in Hp. apply bool_decide_eq_true in Hp.
    rewrite (get_last_direction_chronological _ _ _ Hc) in Hp.
    destruct (last (entity_log db EMPLOYEE i)) as [c|] eqn:El; [|discriminate].
    injection Hp as Hdc. exists c. split; [reflexivity|]. split; [exact Hdc|].
    apply (history_of_chronological_entity db' limit EMPLOYEE i _ Hc' Hlimit').
    unfold pair_entity. rewrite Hlog, pair_loop_app.
    pose proof (pair_loop_final_slot db' EMPLOYEE i (entity_log db EMPLOYEE i) (None, []))
      as Hs.
    rewrite El, (bool_decide_eq_true_2 _ Hdc) in Hs.
    destruct (pair_loop db' EMPLOYEE i (None, []) (entity_log db EMPLOYEE i)) as [slot vs].
    simpl in Hs. subst slot. simpl. unfold pair_step. rewrite Hd. simpl.
    apply in_or_app. right. now left.
Qed.

Lemma accepted_event_shows_in_history_witness :
  In (open_visit Examples.after_in EMPLOYEE 7
        (mkLogEntry 1 EMPLOYEE 7 IN Examples.nine (Some 100)))
     (get_visit_history Examples.after_in None None None None 500).
Proof.
  refine (proj1 (accepted_event_shows_in_history Examples.fresh 7 IN 1 100 Examples.nine 500
                   _ _ _ _) _).
  - reflexivity.
  - constructor.
  - intros e [].
  - simpl. lia.
  - reflexivity.
Defined.

(** X26: the history names an entity after its table row of today. The name
    and department of a visit are those the [Employee] or [Vehicle] row of
    its entity holds now, active or not; when the row has been deleted the
    visit stays in the history under the bracketed placeholder that quotes
    the kind and the id, with an empty department. *)
Theorem history_names_current_entity (db : DB) (loc date_from date_to : option Z)
    (etf : option EntityType) (limit : Z) (v : Visit) :
  In v (get_visit_history db loc date_from date_to etf limit) ->
  match v_entity_type v with
  | EMPLOYEE =>
      match employees db !! v_entity_id v with
      | Some emp =>
          v_entity_name v = nume emp /\
          v_entity_department v
          = match department emp with Some dp => dept_name dp | None => EmptyString end
      | None =>
          v_entity_name v = "[Sters employee #" +:+ Str.of_Z (v_entity_id v) +:+ "]" /\
          v_entity_department v = EmptyString
      end
  | VEHICLE =>
      v_entity_department v = EmptyString /\
      match vehicles db !! v_entity_id v with
      | Some veh => v_entity_name v = plate_number veh
      | None => v_entity_name v = "[Sters vehicle #" +:+ Str.of_Z (v_entity_id v) +:+ "]"
      end
  end.
Proof.
  intros Hv. apply history_visit_of_entity in Hv.
  assert (Hc : exists c, entity_type c = v_entity_type v /\ entity_id c = v_entity_id v /\
                         v_entity_name v = entity_name db c /\
                         v_entity_department v = entity_department db c).
  { assert (HE : forall x,
              In x (List.filter (is_entity (v_entity_type v) (v_entity_id v))
                      (visit_entries db loc date_from date_to etf)) ->
              entity_type x = v_entity_type v /\ entity_id x = v_entity_id v).
    { intros x Hx. apply filter_In in Hx as [_ Hk]. now apply is_entity_true in Hk. }
    destruct (pair_entity_origin _ _ _ _ _ Hv) as [(c & e & Hvc & Hc & _)|(c & Hvc & Hc & _)].
    - exists c. destruct (HE c Hc). rewrite Hvc at 3 4. simpl. auto.
    - exists c. apply last_In in Hc. destruct (HE c Hc). rewrite Hvc at 3 4. simpl. auto. }
  destruct Hc as (c & Ht & Hi & -> & ->).
  unfold entity_name, entity_department. rewrite Ht, Hi.
  destruct (v_entity_type v); simpl.
  - destruct (employees db !! v_entity_id v); split; reflexivity.
  - split; [reflexivity|]. destruct (vehicles db !! v_entity_id v); reflexivity.
Qed.

Lemma history_names_current_entity_witness :
  v_entity_name (open_visit Examples.deleted_inside EMPLOYEE 7
                   (mkLogEntry 1 EMPLOYEE 7 IN 10 (Some 100)))
  = "[Sters employee #7]".
Proof.
  refine (proj1 (history_names_current_entity Examples.deleted_inside None None None None 500
                   (open_visit Examples.deleted_inside EMPLOYEE 7
                      (mkLogEntry 1 EMPLOYEE 7 IN 10 (Some 100))) _)).
  vm_compute. now left.
Defined.



(** * The visit aggregator on two IN events in a row *)

Lemma pair_loop_two_ins (db : DB) (etype : EntityType) (eid : Z) (st : PairState)
    (a b : LogEntry) :
  direction a = IN -> direction b = IN ->
  pair_loop db etype eid st [a; b] = (Some b, snd st).
Proof.
  intros Ha Hb. destruct st as [slot vs]. unfold pair_loop. simpl.
  unfold pair_step. rewrite Ha. cbv beta iota. now rewrite Hb.
Qed.

(** C7: two IN events in a row do not stop the scan, which is a fold over
    the entries and always returns. Whatever was scanned before them, after
    the second IN the slot holds it and no visit has been added; if the scan
    ends there the entity gets the open visit that starts with the second
    IN, and an OUT that follows closes the visit that starts with the second
    IN. The visits of the entity are those of the sequence without the first
    IN. In the history: no visit of the entity starts at the time of the
    first IN (no other entry of the entity bearing that time), and, the cap
    not cutting it, the history holds the open or closed visit that starts
    with the second IN. *)
Theorem double_in_keeps_latest (db : DB) (etype : EntityType) (eid : Z)
    (pre post : list LogEntry) (a b : LogEntry) :
  direction a = IN -> direction b = IN ->
  let before := snd (pair_loop db etype eid (None, []) pre) in
  pair_loop db etype eid (None, []) (pre ++ [a; b]) = (Some b, before) /\
  pair_entity db [] ((etype, eid), pre ++ [a; b]) = before ++ [open_visit db etype eid b] /\
  (forall c rest, direction c = OUT ->
     pair_entity db [] ((etype, eid), pre ++ a :: b :: c :: rest) =
     pair_entity db (before ++ [closed_visit db etype eid b c]) ((etype, eid), rest)) /\
  pair_entity db [] ((etype, eid), pre ++ a :: b :: post) =
  pair_entity db [] ((etype, eid), pre ++ b :: post) /\
  (forall loc date_from date_to etf limit,
     List.filter (is_entity etype eid) (visit_entries db loc date_from date_to etf)
       = pre ++ a :: b :: post ->
     let history := get_visit_history db loc date_from date_to etf limit in
     ((forall x, In x (pre ++ b :: post) -> timestamp x <> timestamp a) ->
      forall v, In v history -> visit_of (etype, eid) v = true ->
                v_entry_time v <> timestamp a) /\
     (Z.of_nat (length (log db)) <= limit ->
      List.filter (visit_of (etype, eid)) history
        = sort_visits (pair_entity db [] ((etype, eid), pre ++ b :: post)) /\
      (post = [] ->
       exists v, In v history /\ v = open_visit db etype eid b /\
                 v_entry_time v = timestamp b /\ v_exit_time v = None) /\
      (forall c rest, post = c :: rest -> direction c = OUT ->
       exists v, In v history /\ v = closed_visit db etype eid b c /\
                 v_entry_time v = timestamp b /\ v_exit_time v = Some (timestamp c)))).
Proof.
  intros Ha Hb before.
  assert (Hslot : pair_loop db etype eid (None, []) (pre ++ [a; b]) = (Some b, before)).
  { rewrite pair_loop_app. now apply pair_loop_two_ins. }
  assert (Hopen : pair_entity db [] ((etype, eid), pre ++ [a; b])
                  = before ++ [open_visit db etype eid b]).
  { unfold pair_entity. now rewrite Hslot. }
  assert (Hclosed : forall c rest, direction c = OUT ->
            pair_entity db [] ((etype, eid), pre ++ a :: b :: c :: rest) =
            pair_entity db (before ++ [closed_visit db etype eid b c]) ((etype, eid), rest)).
  { intros c rest Hc. unfold pair_entity.
    change (pre ++ a :: b :: c :: rest) with (pre ++ [a; b] ++ c :: rest).
    rewrite app_assoc, pair_loop_app, Hslot. simpl. now rewrite Hc. }
  assert (Hdrop : forall l, pair_entity db [] ((etype, eid), pre ++ a :: b :: l) =
                            pair_entity db [] ((etype, eid), pre ++ b :: l)).
  { intros l. unfold pair_entity. rewrite !pair_loop_app.
    set (st := pair_loop db etype eid (None, []) pre).
    assert (E : pair_loop db etype eid st (a :: b :: l)
                = pair_loop db etype eid st (b :: l)); [|now rewrite E].
    change (a :: b :: l) with ([a; b] ++ l). change (b :: l) with ([b] ++ l).
    rewrite !pair_loop_app, (pair_loop_two_ins _ _ _ _ _ _ Ha Hb). f_equal.
    destruct st as [slot vs]. unfold pair_loop. simpl. unfold pair_step. now rewrite Hb. }
  split; [exact Hslot|]. split; [exact Hopen|]. split; [exact Hclosed|].
  split; [apply Hdrop|].
  intros loc date_from date_to etf limit Hseq history. split.
  - intros Hfresh v Hv Hkey. apply bool_decide_eq_true in Hkey.
    apply history_visit_of_entity in Hv. injection Hkey as Ht Hi.
    rewrite Ht, Hi, Hseq, Hdrop in Hv.
    destruct (pair_entity_origin _ _ _ _ _ Hv) as [(c & e & -> & Hc & _)|(c & -> & Hc & _)];
      simpl; [|apply last_In in Hc]; auto.
  - intros Hcap.
    assert (Hall : List.filter (visit_of (etype, eid)) history
                   = sort_visits (pair_entity db [] ((etype, eid), pre ++ b :: post))).
    { unfold history. rewrite history_uncapped by exact Hcap.
      now rewrite paired_visits_of_entity, Hseq, Hdrop. }
    assert (Hin : forall v, In v (pair_entity db [] ((etype, eid), pre ++ a :: b :: post)) ->
                            In v history).
    { intros v Hv. rewrite Hdrop in Hv.
      assert (H : In v (List.filter (visit_of (etype, eid)) history)).
      { rewrite Hall. unfold sort_visits. now apply stable_sort_In. }
      now apply filter_In in H as [H _]. }
    split; [exact Hall|]. split.
    + intros ->. eexists. split; [|repeat split].
      apply Hin. rewrite Hopen. apply in_or_app. right. now left.
    + intros c rest -> Hc. eexists. split; [|repeat split].
      apply Hin. rewrite (Hclosed c rest Hc), pair_entity_acc.
      apply in_or_app. left. apply in_or_app. right. now left.
Qed.

Lemma double_in_keeps_latest_witness :
  List.filter (visit_of (EMPLOYEE, 7))
    (get_visit_history Examples.entered_twice None None None None 500)
  = [closed_visit Examples.entered_twice EMPLOYEE 7
       (mkLogEntry 1 EMPLOYEE 7 IN 20 (Some 100)) (mkLogEntry 1 EMPLOYEE 7 OUT 30 (Some 100))].
Proof.
  pose proof (double_in_keeps_latest Examples.entered_twice EMPLOYEE 7 []
                [mkLogEntry 1 EMPLOYEE 7 OUT 30 (Some 100)]
                (mkLogEntry 1 EMPLOYEE 7 IN 10 (Some 100))
                (mkLogEntry 1 EMPLOYEE 7 IN 20 (Some 100)) eq_refl eq_refl)
    as (_ & _ & _ & _ & H).
  destruct (H None None None None 500 eq_refl) as [_ Hcap].
  destruct Hcap as [Hall _]; [vm_compute; discriminate|exact Hall].
Defined.

(** * Requests served side by side *)







(** * The linker among namesakes *)








